(** * setup.js: the NvChad installer for Ubuntu

    A shallow embedding of [setup.js] and the properties of its
    prerequisite gate, command runner, logger and provisioning steps.

    The script is a straight line of synchronous calls, so it is embedded as
    a program over an explicit [World]: the file system, the rest of the
    host, the system clock and the trace of everything the script did.
    [process.exit] and uncaught exceptions are results of their own, and
    what reaches the log file is settled when the process ends. *)

From stdpp Require Import gmap list strings.

(** ** JavaScript strings

    A JavaScript string is a sequence of UTF-16 code units; [<] on strings
    and [String.prototype.trim] both work on code units. *)

Abbreviation str := (list N).

(** A string literal of the source ('...' or `...`), all ASCII there. *)
Definition lit (s : string) : str :=
  Ascii.N_of_ascii <$> String.list_ascii_of_string s.

(** [a < b] on two strings (ECMAScript IsLessThan): the first differing code
    unit decides, and a proper prefix is smaller. *)
Fixpoint js_lt (a b : str) : bool :=
  match a, b with
  | _, [] => false
  | [], _ :: _ => true
  | x :: a', y :: b' =>
      if (x <? y)%N then true
      else if (y <? x)%N then false
      else js_lt a' b'
  end.

(** WhiteSpace and LineTerminator code points, the ones [trim] removes. *)
Definition is_js_whitespace (c : N) : bool :=
  ((9 <=? c) && (c <=? 13) || (c =? 32) || (c =? 160) || (c =? 5760)
   || (8192 <=? c) && (c <=? 8202) || (c =? 8232) || (c =? 8233)
   || (c =? 8239) || (c =? 8287) || (c =? 12288) || (c =? 65279))%N.

Fixpoint trimStart (s : str) : str :=
  match s with
  | c :: s' => if is_js_whitespace c then trimStart s' else s
  | [] => []
  end.

Definition trim (s : str) : str := reverse (trimStart (reverse (trimStart s))).

(** [s.replace(/^v/, '')]: drops one leading lower-case v. *)
Definition replace_leading_v (s : str) : str :=
  match s with
  | c :: s' => if (c =? 118)%N then s' else s
  | [] => []
  end.

(** Lexicographic order on code-unit sequences, as a relation: what
    "ordinary string comparison" means, independently of [js_lt]. *)
Inductive lex_lt : str -> str -> Prop :=
  | lex_lt_nil y ys : lex_lt [] (y :: ys)
  | lex_lt_head x y xs ys : (x < y)%N -> lex_lt (x :: xs) (y :: ys)
  | lex_lt_tail x xs ys : lex_lt xs ys -> lex_lt (x :: xs) (x :: ys).

(** [d >= m] lexicographically. *)
Definition lex_ge (d m : str) : Prop := ~ lex_lt d m.


(** ** The host: file system, paths, external commands *)

(** A path as [path.join] leaves it: a list of components, absolute or
    relative to the working directory. The components joined by the script
    are plain names, so joining appends them. *)
Record Path := { absolute : bool; segments : list str }.

Definition path_join (base : Path) (more : list str) : Path :=
  {| absolute := absolute base; segments := segments base ++ more |}.

(** A relative path of one component, such as 'JetBrainsMono.zip'. *)
Definition relative (name : str) : Path :=
  {| absolute := false; segments := [name] |}.

Fixpoint join_with (sep : str) (parts : list str) : str :=
  match parts with
  | [] => []
  | [s] => s
  | s :: rest => s ++ sep ++ join_with sep rest
  end.

(** The text of a path, as a template literal interpolates it. *)
Definition path_str (p : Path) : str :=
  if absolute p then lit "/" ++ join_with (lit "/") (segments p)
  else match segments p with
       | [] => lit "."
       | _ => join_with (lit "/") (segments p)
       end.

(** The file system: a finite map from absolute component lists to nodes. *)
Inductive Node := Dir | File (content : str).

Abbreviation FS := (gmap (list str) Node).

(** The root always exists. *)
Definition node_at (fs : FS) (p : list str) : option Node :=
  match p with
  | [] => Some Dir
  | _ => fs !! p
  end.

Definition parent (p : list str) : list str := take (length p - 1) p.

Definition is_dir (fs : FS) (p : list str) : bool :=
  match node_at fs p with
  | Some Dir => true
  | _ => false
  end.

(** [mkdir -p]: walks down from the root, creating what is missing; a file
    in the way is an error. *)
Fixpoint mkdir_p (fs : FS) (above : list str) (below : list str) : option FS :=
  match below with
  | [] => Some fs
  | s :: below' =>
      let q := above ++ [s] in
      match node_at fs q with
      | Some Dir => mkdir_p fs q below'
      | Some (File _) => None
      | None => mkdir_p (<[q := Dir]> fs) q below'
      end
  end.

(** Recursive removal of a directory and everything below it; anything
    else at the path is an error. *)
Definition rm_rf (fs : FS) (p : list str) : option FS :=
  match node_at fs p with
  | Some Dir => Some (filter (fun kv => ~ p `prefix_of` kv.1) fs)
  | _ => None
  end.

Definition unlink (fs : FS) (p : list str) : option FS :=
  match node_at fs p with
  | Some (File _) => Some (delete p fs)
  | _ => None
  end.

(** [copyFile]: the source is a file, the destination's directory exists,
    the destination is not a directory; an existing file is overwritten. *)
Definition copy_file (fs : FS) (src dest : list str) : option FS :=
  match node_at fs src with
  | Some (File content) =>
      if is_dir fs (parent dest) && negb (is_dir fs dest)
      then Some (<[dest := File content]> fs)
      else None
  | _ => None
  end.

(** The calls the script makes on [fs]; [mkdirSync] and [rmdirSync] are only
    ever called with [{ recursive: true }]. [OpenAppend] is the open that
    the stream made by [createWriteStream(p, { flags: 'a' })] asks for. *)
Inductive FsCall :=
  | ExistsSync (p : Path)
  | MkdirSync (p : Path)
  | RmdirSync (p : Path)
  | UnlinkSync (p : Path)
  | CopyFileSync (src dest : Path)
  | OpenAppend (p : Path).

(** The options of [execSync]: [{ encoding: 'utf8' }] captures the output,
    [{ stdio: 'inherit' }] hands the terminal to the child. *)
Inductive Stdio := Pipe | Inherit.

Inductive Severity := INFO | ERROR.

Inductive Console := Stdout | Stderr.

(** What the script does, in order. [EvLogWrite] is a write to [logStream],
    the one stream the script opens on 'debug.log' with [{ flags: 'a' }]
    before anything else; it carries the logger function that issued it
    ([log]: INFO, [logError]: ERROR). [EvConsole] is a call of [console.log]
    or [console.error], [EvLogEnd] is [logStream.end()]. *)
Inductive Event :=
  | EvExec (command : str) (stdio : Stdio)
  | EvLogWrite (severity : Severity) (chunk : str)
  | EvConsole (stream : Console) (message : str)
  | EvFs (call : FsCall)
  | EvLogEnd.

Inductive JsError :=
  | ExecError (message : str)
  | FsError (errno : str) (call : FsCall)
  | TypeError (message : str).

(** [error.message] *)
Definition error_message (e : JsError) : str :=
  match e with
  | ExecError m => m
  | FsError errno _ => errno
  | TypeError m => m
  end.

Inductive ExecResult :=
  | ExecOk (stdout : str)
  | ExecFailed (message : str).

(** The shapes [Date.prototype.toISOString] produces:
    YYYY-MM-DDTHH:mm:ss.sssZ, or a sign and a six-digit year. [None] in a
    pattern stands for a decimal digit. *)
Definition is_digit (c : N) : bool := ((48 <=? c) && (c <=? 57))%N.

Fixpoint matches (pattern : list (option N)) (s : str) : bool :=
  match pattern, s with
  | [], [] => true
  | None :: pattern', c :: s' => is_digit c && matches pattern' s'
  | Some k :: pattern', c :: s' => (c =? k)%N && matches pattern' s'
  | _, _ => false
  end.

Definition iso_month_to_zone : list (option N) :=
  [Some 45; None; None; Some 45; None; None; Some 84; None; None; Some 58;
   None; None; Some 58; None; None; Some 46; None; None; None; Some 90]%N.

Definition is_iso8601 (s : str) : bool :=
  matches (replicate 4 None ++ iso_month_to_zone) s
  || matches (Some 43%N :: replicate 6 None ++ iso_month_to_zone) s
  || matches (Some 45%N :: replicate 6 None ++ iso_month_to_zone) s.

(** Everything the script cannot decide: the environment it is started in,
    what an external command does to the machine, what the clock shows, and
    the file-system calls the operating system refuses (permissions,
    read-only mounts, ...). [Ext] is the state of the machine beyond the
    file tree; [clock_iso n] is what [new Date().toISOString()] returns the
    n-th time the script asks. *)
Class Host := {
  Ext : Type;
  HOME : option Path;
  dirname : Path;
  cwd : list str;
  shell : str -> Ext -> FS -> ExecResult * Ext * FS;
  clock_iso : nat -> str;
  clock_iso_ok : forall n, is_iso8601 (clock_iso n) = true;
  fs_refuses : FsCall -> Ext -> FS -> option str;
}.

(** The state of a run: the file tree, the rest of the machine, how often
    the clock was read, and what the script has done so far. *)
Record World `{Host} := {
  w_fs : FS;
  w_ext : Ext;
  w_ticks : nat;
  w_trace : list Event;
}.

(** How a piece of the script ends: it returns, [process.exit(code)] was
    called, or an exception is on its way up. *)
Inductive Result `{Host} (A : Type) :=
  | Done (a : A) (w : World)
  | Exited (code : Z) (w : World)
  | Thrown (e : JsError) (w : World).

Arguments Done {_ _} a w.
Arguments Exited {_ _} code w.
Arguments Thrown {_ _} e w.

Definition Prog `{Host} (A : Type) : Type := World -> Result A.

Definition final_world `{Host} {A} (r : Result A) : World :=
  match r with
  | Done _ w | Exited _ w | Thrown _ w => w
  end.

(** The exit status, when the process was ended by [process.exit]. *)
Definition exit_code `{Host} {A} (r : Result A) : option Z :=
  match r with
  | Exited code _ => Some code
  | _ => None
  end.

Definition returned `{Host} {A} (r : Result A) : bool :=
  match r with
  | Done _ _ => true
  | _ => false
  end.

Definition thrown `{Host} {A} (r : Result A) : bool :=
  match r with
  | Thrown _ _ => true
  | _ => false
  end.

#[global] Instance prog_ret `{Host} : MRet Prog := fun A a w => Done a w.

#[global] Instance prog_bind `{Host} : MBind Prog := fun A B k m w =>
  match m w with
  | Done a w' => k a w'
  | Exited code w' => Exited code w'
  | Thrown e w' => Thrown e w'
  end.

Section Script.
Context `{Host}.

Definition record (e : Event) (w : World) : World :=
  {| w_fs := w_fs w; w_ext := w_ext w; w_ticks := w_ticks w;
     w_trace := w_trace w ++ [e] |}.

Definition emit (e : Event) : Prog unit := fun w => Done tt (record e w).

Definition throw {A} (e : JsError) : Prog A := fun w => Thrown e w.

(** [process.exit(code)]: nothing after it runs, no handler sees it. *)
Definition process_exit {A} (code : Z) : Prog A := fun w => Exited code w.

(** [try { body } catch (error) { handler }] *)
Definition try_catch {A} (body : Prog A) (handler : JsError -> Prog A) : Prog A :=
  fun w =>
    match body w with
    | Thrown e w' => handler e w'
    | r => r
    end.

Fixpoint forEach {A} (l : list A) (f : A -> Prog unit) : Prog unit :=
  match l with
  | [] => mret tt
  | x :: l' => f x;; forEach l' f
  end.

(** [new Date().toISOString()] *)
Definition now_iso : Prog str := fun w =>
  Done (clock_iso (w_ticks w))
       {| w_fs := w_fs w; w_ext := w_ext w; w_ticks := S (w_ticks w);
          w_trace := w_trace w |}.

Definition nl : str := [10%N].

(** *** Logger configuration *)

(** The stream [logStream] is [fs.createWriteStream(logFile, { flags: 'a' })]:
    what is written to it is in the trace ([EvLogWrite]), and what becomes
    of it is settled when the process ends (see [run] below). *)
Definition logFile : Path := relative (lit "debug.log").

Definition log (message : str) : Prog unit :=
  timestamp ← now_iso;
  let logMessage := lit "[" ++ timestamp ++ lit "] " ++ message ++ nl in
  emit (EvLogWrite INFO logMessage);;
  emit (EvConsole Stdout message).

Definition logError (message : str) : Prog unit :=
  timestamp ← now_iso;
  let errorMessage := lit "[" ++ timestamp ++ lit "] ERROR: " ++ message ++ nl in
  emit (EvLogWrite ERROR errorMessage);;
  emit (EvConsole Stderr message).

(** *** Calls into the host *)

(** [execSync(command, options)]: the call is recorded, the host runs the
    command, and a failure (non-zero exit, signal, spawn error) throws. *)
Definition execSync (command : str) (stdio : Stdio) : Prog str := fun w =>
  let '(r, ext', fs') := shell command (w_ext w) (w_fs w) in
  let w' := {| w_fs := fs'; w_ext := ext'; w_ticks := w_ticks w;
               w_trace := w_trace w ++ [EvExec command stdio] |} in
  match r with
  | ExecOk out => Done (match stdio with Pipe => out | Inherit => [] end) w'
  | ExecFailed message => Thrown (ExecError message) w'
  end.

Definition resolve (p : Path) : list str :=
  if absolute p then segments p else cwd ++ segments p.

(** What [fs.existsSync(p)] answers in [w]. It never throws: when the
    look-up itself fails (a directory on the way that may not be searched,
    ...), which is the host's to decide like any other refusal, the answer
    is [false], as it is when nothing is at the path. *)
Definition found (p : Path) (w : World) : bool :=
  match fs_refuses (ExistsSync p) (w_ext w) (w_fs w) with
  | Some _ => false
  | None => bool_decide (is_Some (node_at (w_fs w) (resolve p)))
  end.

Definition existsSync (p : Path) : Prog bool := fun w =>
  Done (found p w) (record (EvFs (ExistsSync p)) w).

Definition with_fs (fs' : FS) (w : World) : World :=
  {| w_fs := fs'; w_ext := w_ext w; w_ticks := w_ticks w; w_trace := w_trace w |}.

(** A mutating [fs] call: recorded, then refused by the host, or run on the
    tree, where it may fail too ([errno] is the usual code of that failure).
    Either failure throws. *)
Definition fs_call (call : FsCall) (errno : str) (op : FS -> option FS) : Prog unit :=
  fun w =>
    let w' := record (EvFs call) w in
    match fs_refuses call (w_ext w) (w_fs w) with
    | Some refused => Thrown (FsError refused call) w'
    | None =>
        match op (w_fs w) with
        | Some fs' => Done tt (with_fs fs' w')
        | None => Thrown (FsError errno call) w'
        end
    end.

Definition mkdirSync (p : Path) : Prog unit :=
  fs_call (MkdirSync p) (lit "EEXIST") (fun fs => mkdir_p fs [] (resolve p)).

Definition rmdirSync (p : Path) : Prog unit :=
  fs_call (RmdirSync p) (lit "ENOTDIR") (fun fs => rm_rf fs (resolve p)).

Definition unlinkSync (p : Path) : Prog unit :=
  fs_call (UnlinkSync p) (lit "ENOENT") (fun fs => unlink fs (resolve p)).

Definition copyFileSync (src dest : Path) : Prog unit :=
  fs_call (CopyFileSync src dest) (lit "ENOENT")
          (fun fs => copy_file fs (resolve src) (resolve dest)).

(** [path.join(process.env.HOME, ...)]: a TypeError when HOME is unset. *)
Definition join_home (more : list str) : Prog Path :=
  match HOME with
  | Some home => mret (path_join home more)
  | None =>
      throw (TypeError (lit "The " ++ [34%N] ++ lit "path" ++ [34%N]
                        ++ lit " argument must be of type string. Received undefined"))
  end.

(** *** Prerequisites check *)

Record Prerequisite := {
  name : str;
  command : str;
  minVersion : str;
}.

Definition prerequisites : list Prerequisite :=
  [ {| name := lit "Node.js"; command := lit "node --version"; minVersion := lit "v14.0.0" |};
    {| name := lit "npm"; command := lit "npm --version"; minVersion := lit "6.0.0" |};
    {| name := lit "Git"; command := lit "git --version"; minVersion := lit "2.0.0" |} ].

(** The body of [prerequisites.forEach]. *)
Definition check_prerequisite (prereq : Prerequisite) : Prog unit :=
  try_catch
    (out ← execSync (command prereq) Pipe;
     let version := trim out in
     log (name prereq ++ lit " version: " ++ version);;
     let currentVersion := replace_leading_v version in
     let requiredVersion := replace_leading_v (minVersion prereq) in
     if js_lt currentVersion requiredVersion then
       logError (name prereq ++ lit " version " ++ minVersion prereq
                 ++ lit " or higher is required. Please update " ++ name prereq
                 ++ lit " and run the script again.");;
       process_exit 1
     else mret tt)
    (fun error =>
       logError (name prereq
                 ++ lit " is not installed. Please install it and run the script again.");;
       process_exit 1).

Definition check_prerequisites : Prog unit :=
  forEach prerequisites check_prerequisite.

(** *** Helper function to run shell commands *)

Definition runCommand (command : str) : Prog unit :=
  try_catch
    (execSync command Inherit;;
     log (lit "Command executed: " ++ command))
    (fun error =>
       logError (lit "Error executing command: " ++ command);;
       logError (error_message error);;
       process_exit 1).

(** *** Install NeoVim if not already installed *)

Definition install_neovim : Prog unit :=
  log (lit "Checking if NeoVim is installed...");;
  try_catch
    (execSync (lit "nvim --version") Inherit;;
     log (lit "NeoVim is already installed."))
    (fun error =>
       log (lit "Installing NeoVim...");;
       runCommand (lit "sudo apt-get install neovim");;
       log (lit "NeoVim installation completed.")).

(** *** Install JetBrains Mono Nerd Font *)

Definition fontZip : str := lit "JetBrainsMono.zip".

Definition fontUrl : str :=
  lit "https://download.jetbrains.com/fonts/JetBrainsMono-2.242.zip".

Definition install_font : Prog unit :=
  log (lit "Installing JetBrains Mono Nerd Font...");;
  fontDir ← join_home [lit ".local"; lit "share"; lit "fonts"];
  present ← existsSync fontDir;
  (if negb present then mkdirSync fontDir else mret tt);;
  runCommand (lit "curl -L -o " ++ fontZip ++ lit " " ++ fontUrl);;
  runCommand (lit "unzip -q " ++ fontZip ++ lit " -d " ++ path_str fontDir);;
  unlinkSync (relative fontZip);;
  runCommand (lit "fc-cache -f");;
  log (lit "JetBrains Mono Nerd Font installation completed.").

(** *** Install NVChad *)

Definition clone_command (nvimDir : Path) : str :=
  lit "git clone -b v2.0 https://github.com/NvChad/NvChad " ++ path_str nvimDir
  ++ lit " --depth 1".

(** Returns [nvimDir], which the configuration step uses. *)
Definition install_nvchad : Prog Path :=
  log (lit "Checking if NVChad is installed...");;
  nvimDir ← join_home [lit ".config"; lit "nvim"];
  present ← existsSync nvimDir;
  (if (present : bool) then
     log (lit "Removing existing NVChad installation...");;
     rmdirSync nvimDir;;
     log (lit "Existing NVChad installation removed.")
   else mret tt);;
  log (lit "Installing NVChad...");;
  runCommand (clone_command nvimDir);;
  log (lit "NVChad installation completed.");;
  mret nvimDir.

(** *** Configure NVChad / LSPs *)

Record ConfigFile := { src : Path; dest : Path }.

Definition configFiles (nvimDir : Path) : list ConfigFile :=
  [ {| src := path_join dirname [lit "configs"; lit "chadrc.lua"];
       dest := path_join nvimDir [lit "lua"; lit "custom"; lit "chadrc.lua"] |};
    {| src := path_join dirname [lit "configs"; lit "plugins.lua"];
       dest := path_join nvimDir [lit "lua"; lit "custom"; lit "plugins.lua"] |};
    {| src := path_join dirname [lit "configs"; lit "lspconfig.lua"];
       dest := path_join nvimDir [lit "lua"; lit "plugins"; lit "configs"; lit "lspconfig.lua"] |} ].

Definition copy_config (file : ConfigFile) : Prog unit :=
  copyFileSync (src file) (dest file);;
  log (lit "Copied " ++ path_str (src file) ++ lit " to " ++ path_str (dest file)).

Definition configure_nvchad (nvimDir : Path) : Prog unit :=
  log (lit "Configuring NVChad and LSPs...");;
  let customDir := path_join nvimDir [lit "lua"; lit "custom"] in
  present ← existsSync customDir;
  (if negb present then mkdirSync customDir else mret tt);;
  forEach (configFiles nvimDir) copy_config;;
  log (lit "NVChad and LSPs configuration completed.").

(** *** Install LSPs (Python / TypeScript) *)

Definition install_lsps : Prog unit :=
  log (lit "Installing LSPs for Python and TypeScript...");;
  runCommand (lit "sudo npm install -g pyright");;
  runCommand (lit "sudo npm install -g typescript-language-server");;
  log (lit "LSPs for Python and TypeScript installed.").

(** *** The script *)

(** Everything after the prerequisites check. *)
Definition provision : Prog unit :=
  install_neovim;;
  install_font;;
  nvimDir ← install_nvchad;
  configure_nvchad nvimDir;;
  install_lsps;;
  log (lit "Setup completed successfully!");;
  emit EvLogEnd.

Definition main : Prog unit :=
  check_prerequisites;;
  provision.

(** ** Reading a run *)

(** A log entry as a record, and the line it stands for in the log file:
    the timestamp in brackets, the level prefix for errors only, the message. *)
Record LogEntry := {
  entry_timestamp : str;
  entry_severity : Severity;
  entry_message : str;
}.

Definition level_prefix (sev : Severity) : str :=
  match sev with
  | INFO => []
  | ERROR => lit "ERROR: "
  end.

Definition render_entry (e : LogEntry) : str :=
  lit "[" ++ entry_timestamp e ++ lit "] " ++ level_prefix (entry_severity e)
  ++ entry_message e ++ nl.

Definition console_of (sev : Severity) : Console :=
  match sev with
  | INFO => Stdout
  | ERROR => Stderr
  end.

(** The world after one logger call of severity [sev]. *)
Definition logged (sev : Severity) (message : str) (w : World) : World :=
  {| w_fs := w_fs w; w_ext := w_ext w; w_ticks := S (w_ticks w);
     w_trace := w_trace w
       ++ [EvLogWrite sev (render_entry {| entry_timestamp := clock_iso (w_ticks w);
                                           entry_severity := sev;
                                           entry_message := message |});
           EvConsole (console_of sev) message] |}.

(** The world after the host ran a command and left [ext'] and [fs']. *)
Definition executed (command : str) (stdio : Stdio) (ext' : Ext) (fs' : FS)
    (w : World) : World :=
  {| w_fs := fs'; w_ext := ext'; w_ticks := w_ticks w;
     w_trace := w_trace w ++ [EvExec command stdio] |}.

(** What a run added to the trace. *)
Definition since (w w' : World) : list Event :=
  drop (length (w_trace w)) (w_trace w').

(** The checks of [ps], run one after the other from [w], all return, and
    leave [w']. *)
Fixpoint all_pass (ps : list Prerequisite) (w w' : World) : Prop :=
  match ps with
  | [] => w' = w
  | p :: ps' => exists w1, check_prerequisite p w = Done tt w1 /\ all_pass ps' w1 w'
  end.

End Script.

(** The commands handed to [execSync], in order. *)
Definition commands (evs : list Event) : list str :=
  omap (fun e => match e with EvExec c _ => Some c | _ => None end) evs.

(** The lines written to the log with a given severity, in order. *)
Definition entries (sev : Severity) (evs : list Event) : list str :=
  omap (fun e => match e with
                 | EvLogWrite INFO c => match sev with INFO => Some c | ERROR => None end
                 | EvLogWrite ERROR c => match sev with ERROR => Some c | INFO => None end
                 | _ => None
                 end) evs.

(** The calls on [fs], in order. *)
Definition fs_calls (evs : list Event) : list FsCall :=
  omap (fun e => match e with EvFs c => Some c | _ => None end) evs.

(** Everything but the logger's own writes: commands and [fs] calls. *)
Definition is_action (e : Event) : bool :=
  match e with
  | EvExec _ _ | EvFs _ => true
  | _ => false
  end.

Definition actions (evs : list Event) : list Event := filter is_action evs.

(** [needle] occurs in [hay]. *)
Definition contains (needle hay : str) : Prop :=
  exists before after, hay = before ++ needle ++ after.


(** The three messages of the prerequisites check. *)
Definition version_message (prereq : Prerequisite) (version : str) : str :=
  name prereq ++ lit " version: " ++ version.

Definition outdated_message (prereq : Prerequisite) : str :=
  name prereq ++ lit " version " ++ minVersion prereq
  ++ lit " or higher is required. Please update " ++ name prereq
  ++ lit " and run the script again.".

Definition missing_message (prereq : Prerequisite) : str :=
  name prereq ++ lit " is not installed. Please install it and run the script again.".

(** An event the check of [ps] can produce: a version probe of one of them,
    with captured output, or a logger write. *)
Definition gate_event (ps : list Prerequisite) (e : Event) : bool :=
  match e with
  | EvExec c Pipe => bool_decide (c ∈ command <$> ps)
  | EvLogWrite _ _ | EvConsole _ _ => true
  | _ => false
  end.

(** The chunks handed to [logStream.write], in order. *)
Definition written (evs : list Event) : list str :=
  omap (fun e => match e with EvLogWrite _ c => Some c | _ => None end) evs.

(** ** The process from start to end

    The stream made by [createWriteStream] opens its file and writes its
    chunks from the event loop, and the event loop does not turn while the
    script runs: the script is one synchronous block ([execSync] blocks, and
    nothing is awaited). So every chunk handed to [logStream.write] stays in
    the stream's buffer until the script has returned. Only then is the file
    opened for appending, created when it is not there, and the chunks are
    written out in order. [process.exit] and an uncaught exception end the
    process at once, and the buffer is lost with it. *)

(** The text of the file at [p]; nothing when there is no file. *)
Definition file_text (fs : FS) (p : list str) : str :=
  match node_at fs p with
  | Some (File content) => content
  | _ => []
  end.

(** Writing [data] to the file at [p] opened with [{ flags: 'a' }]: after
    what the file holds; a new file when there is none and its directory
    exists. *)
Definition append_file (fs : FS) (p : list str) (data : str) : option FS :=
  match node_at fs p with
  | Some (File content) => Some (<[p := File (content ++ data)]> fs)
  | Some Dir => None
  | None => if is_dir fs (parent p) then Some (<[p := File data]> fs) else None
  end.

(** How the process ends: the script ran to its end, [process.exit(code)]
    was called, or an exception reached the top (an [fs] call that threw,
    or the log stream failing to open its file, an error event nobody
    listens to). *)
Inductive Ending :=
  | Completed
  | ExitedWith (code : Z)
  | Crashed (e : JsError).

(** The exit status of the process. *)
Definition exit_status (e : Ending) : Z :=
  match e with
  | Completed => 0
  | ExitedWith code => code
  | Crashed _ => 1
  end.

Record Outcome := { ending : Ending; disk : FS }.

Section Process.
Context `{Host}.

(** [node setup.js] from the world [w]: the script, then the end of the
    process, where the log stream either writes out its buffer or loses it. *)
Definition run (w : World) : Outcome :=
  match main w with
  | Done _ w' =>
      let call := OpenAppend logFile in
      match fs_refuses call (w_ext w') (w_fs w') with
      | Some refused => {| ending := Crashed (FsError refused call); disk := w_fs w' |}
      | None =>
          match append_file (w_fs w') (resolve logFile) (concat (written (since w w'))) with
          | Some fs' => {| ending := Completed; disk := fs' |}
          | None => {| ending := Crashed (FsError (lit "EISDIR") call); disk := w_fs w' |}
          end
      end
  | Exited code w' => {| ending := ExitedWith code; disk := w_fs w' |}
  | Thrown e w' => {| ending := Crashed e; disk := w_fs w' |}
  end.

(** The two ways a prerequisite check can fail, read off the host alone:
    the probe cannot be run, or it prints a version that is below the
    minimum in the order of strings. *)
Definition tool_missing (prereq : Prerequisite) (w : World) : Prop :=
  exists detail ext' fs',
    shell (command prereq) (w_ext w) (w_fs w) = (ExecFailed detail, ext', fs').

Definition version_below_minimum (prereq : Prerequisite) (w : World) : Prop :=
  exists out ext' fs',
    shell (command prereq) (w_ext w) (w_fs w) = (ExecOk out, ext', fs')
    /\ lex_lt (replace_leading_v (trim out)) (replace_leading_v (minVersion prereq)).

Definition check_fails (prereq : Prerequisite) (w : World) : Prop :=
  tool_missing prereq w \/ version_below_minimum prereq w.

(** Whether the host runs [cmd] with success in [w]. *)
Definition succeeds (cmd : str) (w : World) : bool :=
  match shell cmd (w_ext w) (w_fs w) with
  | (ExecOk _, _, _) => true
  | (ExecFailed _, _, _) => false
  end.

End Process.

(** ** Example hosts

    Small machines to run the script on: a table says what each command
    line does, a list says which [fs] calls the system refuses. A command
    that is not in the table fails the way [execSync] reports it. *)

#[global] Instance Path_eq_dec : EqDecision Path.
Proof. solve_decision. Defined.

#[global] Instance FsCall_eq_dec : EqDecision FsCall.
Proof. solve_decision. Defined.

Definition Rule : Type := str * ExecResult * (FS -> FS).

Fixpoint run_rules (rules : list Rule) (cmd : str) (fs : FS) : ExecResult * unit * FS :=
  match rules with
  | [] => (ExecFailed (lit "Command failed: " ++ cmd), tt, fs)
  | (c, r, effect) :: rules' =>
      if decide (c = cmd) then (r, tt, effect fs) else run_rules rules' cmd fs
  end.

Definition home_dev : Path :=
  {| absolute := true; segments := [lit "home"; lit "dev"] |}.

Definition checkout : Path := path_join home_dev [lit "installer"].

Definition scripted (rules : list Rule) (refused : list FsCall) : Host :=
  {| Ext := unit;
     HOME := Some home_dev;
     dirname := checkout;
     cwd := segments checkout;
     shell := fun cmd _ fs => run_rules rules cmd fs;
     clock_iso := fun _ => lit "2024-05-01T10:00:00.000Z";
     clock_iso_ok := fun _ => eq_refl;
     fs_refuses := fun call _ _ =>
       if decide (call ∈ refused) then Some (lit "EACCES") else None |}.

Definition boot (rules : list Rule) (refused : list FsCall) (fs : FS) :
    @World (scripted rules refused) :=
  @Build_World (scripted rules refused) fs tt 0 [].

Definition nvim_dev : Path := path_join home_dev [lit ".config"; lit "nvim"].

(** What the clone leaves; [with_plugins] says whether the tree has
    lua/plugins/configs. *)
Definition cloned (with_plugins : bool) (fs : FS) : FS :=
  let tree := <[segments nvim_dev ++ [lit "lua"] := Dir]> (<[segments nvim_dev := Dir]> fs) in
  if with_plugins then
    <[segments nvim_dev ++ [lit "lua"; lit "plugins"; lit "configs"] := Dir]>
      (<[segments nvim_dev ++ [lit "lua"; lit "plugins"] := Dir]> tree)
  else tree.

Definition downloaded (fs : FS) : FS :=
  <[segments checkout ++ [fontZip] := File (lit "PK")]> fs.

Definition probes (node_version : str) : list Rule :=
  [ (lit "node --version", ExecOk (node_version ++ nl), id);
    (lit "npm --version", ExecOk (lit "9.6.7" ++ nl), id);
    (lit "git --version", ExecOk (lit "git version 2.34.1" ++ nl), id) ].

Definition tools (with_plugins : bool) : list Rule :=
  [ (lit "curl -L -o " ++ fontZip ++ lit " " ++ fontUrl, ExecOk [], downloaded);
    (lit "unzip -q " ++ fontZip ++ lit " -d /home/dev/.local/share/fonts", ExecOk [], id);
    (lit "fc-cache -f", ExecOk [], id);
    (clone_command nvim_dev, ExecOk [], cloned with_plugins);
    (lit "sudo npm install -g pyright", ExecOk [], id);
    (lit "sudo npm install -g typescript-language-server", ExecOk [], id) ].

(** A machine with everything in place, NeoVim included. *)
Definition ready : list Rule :=
  probes (lit "v18.17.0") ++ (lit "nvim --version", ExecOk [], id) :: tools true.

(** The same machine without NeoVim and without a working package manager. *)
Definition bare : list Rule := probes (lit "v18.17.0") ++ tools true.

(** A machine with an old Node.js. *)
Definition outdated : list Rule := probes (lit "v12.22.9") ++ tools true.

(** A clone that has no lua/plugins/configs. *)
Definition slim_clone : list Rule :=
  probes (lit "v18.17.0") ++ (lit "nvim --version", ExecOk [], id) :: tools false.

(** The checkout with its three configuration files. *)
Definition fresh_disk : FS :=
  list_to_map
    [ ([lit "home"], Dir); (segments home_dev, Dir); (segments checkout, Dir);
      (segments checkout ++ [lit "configs"], Dir);
      (segments checkout ++ [lit "configs"; lit "chadrc.lua"], File (lit "return {}"));
      (segments checkout ++ [lit "configs"; lit "plugins.lua"], File (lit "return {}"));
      (segments checkout ++ [lit "configs"; lit "lspconfig.lua"], File (lit "return {}")) ].

(** The same disk with an earlier installation under ~/.config/nvim. *)
Definition used_disk : FS :=
  <[segments nvim_dev ++ [lit "init.lua"] := File (lit "-- old")]>
    (<[segments nvim_dev := Dir]>
       (<[segments home_dev ++ [lit ".config"] := Dir]> fresh_disk)).

(** The first prerequisite of the script, and one that asks for Node.js 10. *)
Definition node_js : Prerequisite :=
  {| name := lit "Node.js"; command := lit "node --version"; minVersion := lit "v14.0.0" |}.

Definition node_10 : Prerequisite :=
  {| name := lit "Node.js"; command := lit "node --version"; minVersion := lit "10.0.0" |}.

(** ** Whole runs

    What the script keeps to over a whole run, whatever the host does. *)

(** The logger discipline on a stretch of the trace: a write to the log
    stream is the rendering of an entry whose timestamp has the ISO-8601
    shape, and the very next event hands the entry's message to the console
    stream of its severity; the console is not written to otherwise. *)
Inductive well_logged : list Event -> Prop :=
  | well_logged_nil : well_logged []
  | well_logged_entry (e : LogEntry) (rest : list Event) :
      is_iso8601 (entry_timestamp e) = true ->
      well_logged rest ->
      well_logged (EvLogWrite (entry_severity e) (render_entry e)
                   :: EvConsole (console_of (entry_severity e)) (entry_message e)
                   :: rest)
  | well_logged_exec (cmd : str) (stdio : Stdio) (rest : list Event) :
      well_logged rest -> well_logged (EvExec cmd stdio :: rest)
  | well_logged_fs (call : FsCall) (rest : list Event) :
      well_logged rest -> well_logged (EvFs call :: rest)
  | well_logged_end (rest : list Event) :
      well_logged rest -> well_logged (EvLogEnd :: rest).

(** Whatever world [m] starts in, what it adds to the trace comes after what
    was there and satisfies [P]; and if [m] ends the process, the exit
    status is 1. *)
Definition adds `{Host} {A} (P : list Event -> Prop) (m : Prog A) : Prop :=
  forall w,
    (exists evs, w_trace (final_world (m w)) = w_trace w ++ evs /\ P evs)
    /\ (forall code, exit_code (m w) = Some code -> code = 1%Z).

(** Unless [m] ends the process, what it adds to the trace has no ERROR
    entry: an error that is logged is followed by [process.exit]. *)
Definition errors_exit `{Host} {A} (m : Prog A) : Prop :=
  forall w,
    exists evs,
      w_trace (final_world (m w)) = w_trace w ++ evs
      /\ (exit_code (m w) = None -> entries ERROR evs = []).

(** At world [w], the commands and [fs] calls of [m] follow [plan]: what [m]
    does is a beginning of the plan, and all of it when [m] returns. *)
Definition follows `{Host} {A} (w : World) (plan : list Event) (m : Prog A) : Prop :=
  exists evs,
    w_trace (final_world (m w)) = w_trace w ++ evs
    /\ actions evs `prefix_of` plan
    /\ (returned (m w) = true -> actions evs = plan).

(** [m] ends the log stream when it returns, as the last thing it does and
    right after logging [message], and otherwise leaves the stream open. *)
Definition ends_log_after `{Host} (message : str) (m : Prog unit) : Prop :=
  forall w,
    exists evs,
      w_trace (final_world (m w)) = w_trace w ++ evs
      /\ if returned (m w)
         then exists before stamp,
                evs = before
                      ++ [EvLogWrite INFO (render_entry
                            {| entry_timestamp := stamp; entry_severity := INFO;
                               entry_message := message |});
                          EvConsole Stdout message; EvLogEnd]
                /\ EvLogEnd ∉ before
         else EvLogEnd ∉ evs.

(** The command lines of the font step and of the language servers. *)
Definition curl_command : str := lit "curl -L -o " ++ fontZip ++ lit " " ++ fontUrl.

Definition unzip_command (fontDir : Path) : str :=
  lit "unzip -q " ++ fontZip ++ lit " -d " ++ path_str fontDir.

Definition pyright_command : str := lit "sudo npm install -g pyright".

Definition tsserver_command : str := lit "sudo npm install -g typescript-language-server".

(** The plans of the steps. [present] is what [existsSync] answers for the
    directory the step looks for, [installed] whether the editor's probe
    succeeds. *)
Definition gate_plan (ps : list Prerequisite) : list Event :=
  (fun p => EvExec (command p) Pipe) <$> ps.

Definition neovim_plan (installed : bool) : list Event :=
  EvExec (lit "nvim --version") Inherit
  :: (if installed then [] else [EvExec (lit "sudo apt-get install neovim") Inherit]).

Definition font_plan (home : Path) (present : bool) : list Event :=
  let fontDir := path_join home [lit ".local"; lit "share"; lit "fonts"] in
  EvFs (ExistsSync fontDir)
  :: (if present then [] else [EvFs (MkdirSync fontDir)])
  ++ [EvExec curl_command Inherit;
      EvExec (unzip_command fontDir) Inherit;
      EvFs (UnlinkSync (relative fontZip));
      EvExec (lit "fc-cache -f") Inherit].

Definition nvchad_plan (home : Path) (present : bool) : list Event :=
  let nvimDir := path_join home [lit ".config"; lit "nvim"] in
  EvFs (ExistsSync nvimDir)
  :: (if present then [EvFs (RmdirSync nvimDir)] else [])
  ++ [EvExec (clone_command nvimDir) Inherit].

Definition configure_plan `{Host} (nvimDir : Path) (present : bool) : list Event :=
  let customDir := path_join nvimDir [lit "lua"; lit "custom"] in
  EvFs (ExistsSync customDir)
  :: (if present then [] else [EvFs (MkdirSync customDir)])
  ++ ((fun file => EvFs (CopyFileSync (src file) (dest file))) <$> configFiles nvimDir).

Definition lsps_plan : list Event :=
  [EvExec pyright_command Inherit; EvExec tsserver_command Inherit].

(** The distribution step from [Installing NVChad...] on: the clone and
    what follows it. *)
Definition clone_and_finish `{Host} (nvimDir : Path) : Prog Path :=
  log (lit "Installing NVChad...");;
  runCommand (clone_command nvimDir);;
  log (lit "NVChad installation completed.");;
  mret nvimDir.

(** ** More example hosts *)

(** A machine on which HOME is not set. *)
Definition homeless (rules : list Rule) : Host :=
  {| Ext := unit;
     HOME := None;
     dirname := checkout;
     cwd := segments checkout;
     shell := fun cmd _ fs => run_rules rules cmd fs;
     clock_iso := fun _ => lit "2024-05-01T10:00:00.000Z";
     clock_iso_ok := fun _ => eq_refl;
     fs_refuses := fun _ _ _ => None |}.

Definition boot_homeless (rules : list Rule) (fs : FS) : @World (homeless rules) :=
  @Build_World (homeless rules) fs tt 0 [].

(** A machine whose Node.js is exactly the minimum, and one with an old Git,
    which prints its version the way Git does. *)
Definition exact_node : list Rule := probes (lit "v14.0.0").

Definition old_git : list Rule :=
  [ (lit "git --version", ExecOk (lit "git version 1.9.0" ++ nl), id) ].

Definition git : Prerequisite :=
  {| name := lit "Git"; command := lit "git --version"; minVersion := lit "2.0.0" |}.

(** A machine without Git, and a disk on which an earlier run has left its
    log in the checkout, where the script is started. *)
Definition no_git : list Rule := take 2 (probes (lit "v18.17.0")).

(** A machine that has everything, but whose Git answers the probe with a
    bare [1.9.0]. *)
Definition bare_git_1_9 : list Rule :=
  no_git ++ (lit "git --version", ExecOk (lit "1.9.0" ++ nl), id)
         :: (lit "nvim --version", ExecOk [], id) :: tools true.

Definition earlier_log : str :=
  lit "[2024-04-30T09:00:00.000Z] Setup completed successfully!" ++ nl.

Definition logged_disk : FS :=
  <[segments checkout ++ [lit "debug.log"] := File earlier_log]> fresh_disk.

(** * Properties *)

(** ** String comparison *)

Lemma js_lt_lex_lt (a b : str) : js_lt a b = true <-> lex_lt a b.
Proof.
  revert b. induction a as [|x a IH]; intros [|y b]; simpl.
  - split; [discriminate | inversion 1].
  - split; [constructor | reflexivity].
  - split; [discriminate | inversion 1].
  - destruct (N.ltb_spec x y) as [Hxy|Hxy].
    + split; [intros _; by constructor | reflexivity].
    + destruct (N.ltb_spec y x) as [Hyx|Hyx].
      * split; [discriminate |].
        inversion 1; subst; lia.
      * assert (x = y) by lia. subst y. rewrite IH.
        split; [by constructor |]. inversion 1; subst; [lia | done].
Qed.

Lemma js_lt_false_lex_ge (a b : str) : js_lt a b = false <-> lex_ge a b.
Proof.
  unfold lex_ge. rewrite <- js_lt_lex_lt. destruct (js_lt a b); naive_solver.
Qed.

Lemma contains_start (needle after : str) : contains needle (needle ++ after).
Proof. by exists [], after. Qed.

Lemma contains_app_r (needle before hay : str) :
  contains needle hay -> contains needle (before ++ hay).
Proof.
  intros (b & a & ->). exists (before ++ b), a. by rewrite <- app_assoc.
Qed.

Lemma contains_refl (needle : str) : contains needle needle.
Proof. exists [], []. by rewrite app_nil_r. Qed.

(** Finds [needle] in a concatenation that mentions it. *)
Ltac find_needle :=
  unfold render_entry; cbn; rewrite <- ?app_assoc;
  repeat first [ apply contains_refl | apply contains_start | apply contains_app_r ].

(** ** The file tree *)

Lemma parent_snoc (p : list str) (s : str) : parent (p ++ [s]) = p.
Proof.
  unfold parent. rewrite length_app. cbn.
  replace (length p + 1 - 1) with (length p) by lia.
  by rewrite take_app_length.
Qed.




(** ** The logger and the calls into the host *)

Section Properties.
Context `{Host}.

#[local] Arguments lit : simpl never.
#[local] Arguments render_entry : simpl never.

Lemma bind_run {A B} (m : Prog A) (k : A -> Prog B) (w : World) :
  (m ≫= k) w =
  match m w with
  | Done a w' => k a w'
  | Exited code w' => Exited code w'
  | Thrown e w' => Thrown e w'
  end.
Proof. reflexivity. Qed.

Ltac run_prog := repeat (rewrite bind_run; cbn).

Lemma log_run (message : str) (w : World) :
  log message w = Done tt (logged INFO message w).
Proof.
  unfold log, logged, render_entry, emit, record. run_prog.
  by rewrite <- app_assoc.
Qed.

Lemma logError_run (message : str) (w : World) :
  logError message w = Done tt (logged ERROR message w).
Proof.
  unfold logError, logged, render_entry, emit, record. run_prog.
  by rewrite <- app_assoc.
Qed.

Lemma execSync_run (cmd : str) (stdio : Stdio) (w : World) :
  execSync cmd stdio w =
  match shell cmd (w_ext w) (w_fs w) with
  | (ExecOk out, ext', fs') =>
      Done (match stdio with Pipe => out | Inherit => [] end)
           (executed cmd stdio ext' fs' w)
  | (ExecFailed detail, ext', fs') =>
      Thrown (ExecError detail) (executed cmd stdio ext' fs' w)
  end.
Proof.
  unfold execSync, executed.
  by destruct (shell cmd (w_ext w) (w_fs w)) as [[[out|detail] ext'] fs'].
Qed.

Lemma since_app (w w' : World) (evs : list Event) :
  w_trace w' = w_trace w ++ evs -> since w w' = evs.
Proof. intros E. unfold since. rewrite E. apply drop_app_length. Qed.

(** Puts a trace made of [logged] and [executed] steps into the form
    [w_trace w ++ evs] and reads off [since w _]. *)
Ltac read_since :=
  erewrite since_app;
    [| cbn [logged executed record with_fs w_trace]; rewrite <- ?app_assoc; reflexivity ];
  cbn [app].

(** X13: [log(message)] and [logError(message)] each make the line
    [[<timestamp>] <message>], with [ERROR: ] before the message for errors,
    the timestamp being the ISO-8601 text of the clock; they write it to the
    log stream, after what was written before, hand the bare message to
    standard output ([log]) or standard error ([logError]) and return; the
    call itself changes nothing on the disk. The line is the rendering of a
    log entry with that timestamp, severity INFO or ERROR, and message. *)
Theorem logger_contract (message : str) (w : World) :
  let stamp := clock_iso (w_ticks w) in
  let entry sev :=
    {| entry_timestamp := stamp; entry_severity := sev; entry_message := message |} in
  (exists w',
      log message w = Done tt w'
      /\ w_trace w' = w_trace w
           ++ [EvLogWrite INFO (lit "[" ++ stamp ++ lit "] " ++ message ++ nl);
               EvConsole Stdout message]
      /\ w_fs w' = w_fs w)
  /\ (exists w',
      logError message w = Done tt w'
      /\ w_trace w' = w_trace w
           ++ [EvLogWrite ERROR (lit "[" ++ stamp ++ lit "] ERROR: " ++ message ++ nl);
               EvConsole Stderr message]
      /\ w_fs w' = w_fs w)
  /\ render_entry (entry INFO) = lit "[" ++ stamp ++ lit "] " ++ message ++ nl
  /\ render_entry (entry ERROR) = lit "[" ++ stamp ++ lit "] ERROR: " ++ message ++ nl
  /\ is_iso8601 stamp = true.
Proof.
  intros stamp entry. split; [| split; [| split; [| split]]].
  - exists (logged INFO message w). by rewrite log_run.
  - exists (logged ERROR message w). by rewrite logError_run.
  - reflexivity.
  - reflexivity.
  - apply clock_iso_ok.
Qed.

(** The command runner, case by case. *)
Lemma runCommand_run (cmd : str) (w : World) :
  runCommand cmd w =
  match shell cmd (w_ext w) (w_fs w) with
  | (ExecOk _, ext', fs') =>
      Done tt (logged INFO (lit "Command executed: " ++ cmd)
                      (executed cmd Inherit ext' fs' w))
  | (ExecFailed detail, ext', fs') =>
      Exited 1 (logged ERROR detail
                  (logged ERROR (lit "Error executing command: " ++ cmd)
                     (executed cmd Inherit ext' fs' w)))
  end.
Proof.
  unfold runCommand, try_catch. rewrite bind_run, execSync_run.
  destruct (shell cmd (w_ext w) (w_fs w)) as [[[out|detail] ext'] fs'].
  - by rewrite log_run.
  - rewrite bind_run, logError_run. cbn.
    by rewrite bind_run, logError_run.
Qed.

(** C3: the command runner hands the command line to the host once. When the
    child exits with code 0 it logs one confirmation line that contains the
    command text, and returns. When the child fails (non-zero exit or spawn
    error) it logs an error line naming the command, then the underlying error
    detail, and ends the process with exit status 1: the command is not run
    again, and whatever would follow the call does not run. *)
Theorem runCommand_contract (cmd : str) (w : World) :
  match shell cmd (w_ext w) (w_fs w) with
  | (ExecOk _, ext', fs') =>
      let w' := logged INFO (lit "Command executed: " ++ cmd)
                       (executed cmd Inherit ext' fs' w) in
      runCommand cmd w = Done tt w'
      /\ commands (since w w') = [cmd]
      /\ (exists line, entries INFO (since w w') = [line] /\ contains cmd line)
      /\ entries ERROR (since w w') = []
  | (ExecFailed detail, ext', fs') =>
      let w' := logged ERROR detail
                  (logged ERROR (lit "Error executing command: " ++ cmd)
                     (executed cmd Inherit ext' fs' w)) in
      runCommand cmd w = Exited 1 w'
      /\ commands (since w w') = [cmd]
      /\ (exists line1 line2,
             entries ERROR (since w w') = [line1; line2]
             /\ contains cmd line1 /\ contains detail line2)
      /\ forall B (k : unit -> Prog B), (runCommand cmd ≫= k) w = Exited 1 w'
  end.
Proof.
  assert (E := runCommand_run cmd w).
  destruct (shell cmd (w_ext w) (w_fs w)) as [[[out|detail] ext'] fs']; intros w'.
  - split; [exact E |]. subst w'. read_since. repeat split.
    eexists. split; [reflexivity | find_needle].
  - split; [exact E |]. split; [| split].
    + subst w'. by read_since.
    + subst w'. read_since. do 2 eexists. split; [reflexivity |].
      split; find_needle.
    + intros B k. by rewrite bind_run, E.
Qed.

(** C4 (as amended): a failing invocation of the command runner writes
    exactly two ERROR entries, the first naming the failing command line and
    the second carrying the error detail; no INFO entry follows; the process
    then ends with exit status 1 and nothing that would follow the invocation
    runs. *)
Theorem runCommand_failure_entries (cmd detail : str) (w : World) ext' fs' :
  shell cmd (w_ext w) (w_fs w) = (ExecFailed detail, ext', fs') ->
  exists w' line1 line2,
    runCommand cmd w = Exited 1 w'
    /\ entries ERROR (since w w') = [line1; line2]
    /\ contains cmd line1
    /\ contains detail line2
    /\ entries INFO (since w w') = []
    /\ commands (since w w') = [cmd]
    /\ forall B (k : unit -> Prog B), (runCommand cmd ≫= k) w = Exited 1 w'.
Proof.
  intros Hshell.
  assert (E := runCommand_run cmd w). rewrite Hshell in E.
  set (w' := logged ERROR detail
               (logged ERROR (lit "Error executing command: " ++ cmd)
                  (executed cmd Inherit ext' fs' w))) in *.
  exists w'. do 2 eexists. split; [exact E |].
  subst w'. read_since.
  split; [reflexivity |]. split; [find_needle |]. split; [find_needle |].
  split; [reflexivity |]. split; [reflexivity |].
  intros B k. by rewrite bind_run, E.
Qed.

(** ** The prerequisites check *)

(** One check, case by case. *)
Lemma check_prerequisite_run (prereq : Prerequisite) (w : World) :
  check_prerequisite prereq w =
  match shell (command prereq) (w_ext w) (w_fs w) with
  | (ExecOk out, ext', fs') =>
      let v := logged INFO (version_message prereq (trim out))
                      (executed (command prereq) Pipe ext' fs' w) in
      if js_lt (replace_leading_v (trim out)) (replace_leading_v (minVersion prereq))
      then Exited 1 (logged ERROR (outdated_message prereq) v)
      else Done tt v
  | (ExecFailed _, ext', fs') =>
      Exited 1 (logged ERROR (missing_message prereq)
                       (executed (command prereq) Pipe ext' fs' w))
  end.
Proof.
  unfold check_prerequisite, try_catch.
  rewrite bind_run, execSync_run.
  destruct (shell (command prereq) (w_ext w) (w_fs w)) as [[[out|detail] ext'] fs'].
  - cbn zeta. rewrite bind_run, log_run.
    destruct (js_lt _ _); [| reflexivity].
    by rewrite bind_run, logError_run.
  - by rewrite bind_run, logError_run.
Qed.

(** C1 (as amended): when the probe of a prerequisite returns output, the
    check passes exactly when the detected version (the trimmed output
    without a leading v) is not below the minimum (without a leading v) in
    the lexicographic order of strings, and ends the process with status 1
    exactly when it is below; in that order '10.0.0' is below '9.0.0', and
    '9.0.0' is not below '10.0.0'. *)
Theorem gate_compares_lexicographically (prereq : Prerequisite) (w : World)
    (out : str) ext' fs' :
  shell (command prereq) (w_ext w) (w_fs w) = (ExecOk out, ext', fs') ->
  let d := replace_leading_v (trim out) in
  let m := replace_leading_v (minVersion prereq) in
  ((exists w', check_prerequisite prereq w = Done tt w') <-> lex_ge d m)
  /\ ((exists w', check_prerequisite prereq w = Exited 1 w') <-> lex_lt d m)
  /\ lex_lt (lit "10.0.0") (lit "9.0.0")
  /\ lex_ge (lit "9.0.0") (lit "10.0.0").
Proof.
  intros Hshell d m.
  assert (Hrun := check_prerequisite_run prereq w).
  rewrite Hshell in Hrun. cbn zeta in Hrun. fold d m in Hrun.
  rewrite <- js_lt_false_lex_ge, <- js_lt_lex_lt.
  split; [| split; [| split]].
  - rewrite Hrun. destruct (js_lt d m); split; try done.
    + by intros [w' ?].
    + eauto.
  - rewrite Hrun. destruct (js_lt d m); split; try done.
    + eauto.
    + by intros [w' ?].
  - apply js_lt_lex_lt. vm_compute. reflexivity.
  - apply js_lt_false_lex_ge. vm_compute. reflexivity.
Qed.

(** Checks that pass leave no error in the log, and the checks after them
    start where they stopped. *)
Lemma all_pass_run (before rest : list Prerequisite) (v w : World) :
  all_pass before v w ->
  forEach (before ++ rest) check_prerequisite v = forEach rest check_prerequisite w
  /\ exists evs, w_trace w = w_trace v ++ evs /\ entries ERROR evs = [].
Proof.
  revert v. induction before as [|p before IH]; intros v Hpass.
  - cbn in Hpass. subst w. split; [done |]. exists []. by rewrite app_nil_r.
  - destruct Hpass as (v1 & Hp & Hpass).
    destruct (IH v1 Hpass) as (Hrun & evs & Htrace & Hnone).
    split; [cbn; by rewrite bind_run, Hp |].
    rewrite check_prerequisite_run in Hp.
    destruct (shell (command p) (w_ext v) (w_fs v)) as [[[out|detail] ext'] fs'];
      [| done].
    cbn zeta in Hp. destruct (js_lt _ _); [done |].
    injection Hp as <-. eexists. split.
    + rewrite Htrace. cbn [logged executed w_trace]. rewrite <- !app_assoc. reflexivity.
    + cbn. exact Hnone.
Qed.

(** C5: when the probe of a prerequisite cannot be run (the tool is absent,
    the probe exits with a non-zero code, or it cannot be spawned), the check
    logs exactly one error, which names the tool and asks to install it, logs
    nothing else, and ends the process with exit status 1; the probe was the
    only command run, and nothing that would follow the check runs. In the
    script, where the checks before it have passed, the whole run ends there
    with status 1, before provisioning, with that one error in its log. *)
Theorem missing_tool_stops_the_run (prereq : Prerequisite) (w : World)
    (detail : str) ext' fs' :
  shell (command prereq) (w_ext w) (w_fs w) = (ExecFailed detail, ext', fs') ->
  let w' := logged ERROR (missing_message prereq)
                   (executed (command prereq) Pipe ext' fs' w) in
  check_prerequisite prereq w = Exited 1 w'
  /\ (exists line,
         entries ERROR (since w w') = [line]
         /\ contains (name prereq) line
         /\ contains (lit "Please install it") line)
  /\ entries INFO (since w w') = []
  /\ since w w' = [EvExec (command prereq) Pipe;
                   EvLogWrite ERROR (render_entry
                     {| entry_timestamp := clock_iso (w_ticks w);
                        entry_severity := ERROR;
                        entry_message := missing_message prereq |});
                   EvConsole Stderr (missing_message prereq)]
  /\ (forall B (k : unit -> Prog B), (check_prerequisite prereq ≫= k) w = Exited 1 w')
  /\ (forall before after v,
         prerequisites = before ++ prereq :: after ->
         all_pass before v w ->
         main v = Exited 1 w'
         /\ length (entries ERROR (since v w')) = 1).
Proof.
  intros Hshell w'.
  assert (Hrun := check_prerequisite_run prereq w). rewrite Hshell in Hrun.
  fold w' in Hrun.
  split; [exact Hrun |].
  assert (Hsince : since w w' =
            [EvExec (command prereq) Pipe;
             EvLogWrite ERROR (render_entry
               {| entry_timestamp := clock_iso (w_ticks w); entry_severity := ERROR;
                  entry_message := missing_message prereq |});
             EvConsole Stderr (missing_message prereq)]) by (subst w'; by read_since).
  rewrite Hsince.
  split; [| split; [| split; [| split]]]; cycle 4.
  { intros before after v Hsplit Hpass.
    destruct (all_pass_run before (prereq :: after) v w Hpass) as (Hgate & evs & Htrace & Hnone).
    split.
    - unfold main, check_prerequisites. rewrite bind_run, Hsplit, Hgate.
      cbn [forEach]. by rewrite bind_run, Hrun.
    - erewrite since_app
        by (subst w'; cbn [logged executed w_trace]; rewrite Htrace, <- ?app_assoc; reflexivity).
      unfold entries in *. rewrite omap_app, Hnone. reflexivity. }
  - eexists. split; [reflexivity |].
    split; unfold missing_message; [find_needle |].
    replace (lit " is not installed. Please install it and run the script again.")
      with (lit " is not installed. " ++ lit "Please install it"
            ++ lit " and run the script again.") by (vm_compute; reflexivity).
    find_needle.
  - reflexivity.
  - reflexivity.
  - intros B k. by rewrite bind_run, Hrun.
Qed.

(** C8 (as amended): when the probe of a prerequisite returns output, the
    check first logs the detected version, whatever it is; then, if the
    detected version compares below the minimum, it logs an error naming the
    tool and the required version and ends the process with exit status 1,
    and otherwise it returns, so that the next prerequisite is checked. *)
Theorem check_logs_version_then_compares (prereq : Prerequisite) (w : World) :
  match shell (command prereq) (w_ext w) (w_fs w) with
  | (ExecOk out, ext', fs') =>
      let v := logged INFO (version_message prereq (trim out))
                      (executed (command prereq) Pipe ext' fs' w) in
      since w v = [EvExec (command prereq) Pipe;
                   EvLogWrite INFO (render_entry
                     {| entry_timestamp := clock_iso (w_ticks w);
                        entry_severity := INFO;
                        entry_message := version_message prereq (trim out) |});
                   EvConsole Stdout (version_message prereq (trim out))]
      /\ contains (trim out) (version_message prereq (trim out))
      /\ if js_lt (replace_leading_v (trim out)) (replace_leading_v (minVersion prereq))
         then check_prerequisite prereq w
              = Exited 1 (logged ERROR (outdated_message prereq) v)
              /\ contains (name prereq) (outdated_message prereq)
              /\ contains (minVersion prereq) (outdated_message prereq)
         else check_prerequisite prereq w = Done tt v
  | (ExecFailed _, _, _) => True
  end.
Proof.
  assert (Hrun := check_prerequisite_run prereq w).
  destruct (shell (command prereq) (w_ext w) (w_fs w)) as [[[out|detail] ext'] fs'];
    [| exact I].
  cbn zeta in *. split; [by read_since |].
  split; [unfold version_message; find_needle |].
  destruct (js_lt _ _); [| exact Hrun].
  split; [exact Hrun |]. split; unfold outdated_message; find_needle.
Qed.

(** A check only probes and logs, and it returns or exits with status 1. *)
Lemma check_prerequisite_events (ps : list Prerequisite) (p : Prerequisite) (w : World) :
  p ∈ ps ->
  exists w' evs,
    (check_prerequisite p w = Done tt w' \/ check_prerequisite p w = Exited 1 w')
    /\ w_trace w' = w_trace w ++ evs
    /\ Forall (gate_event ps) evs.
Proof.
  intros Hin. rewrite check_prerequisite_run.
  assert (Hcmd : gate_event ps (EvExec (command p) Pipe)).
  { cbn. apply bool_decide_pack. by apply list_elem_of_fmap_2. }
  destruct (shell (command p) (w_ext w) (w_fs w)) as [[[out|detail] ext'] fs'].
  - cbn zeta. destruct (js_lt _ _); eexists; eexists;
      (split; [eauto |]); (split; [cbn; rewrite <- ?app_assoc; reflexivity |]);
      repeat constructor; exact Hcmd.
  - eexists; eexists. split; [eauto |].
    split; [cbn; rewrite <- ?app_assoc; reflexivity |].
    repeat constructor; exact Hcmd.
Qed.

(** The checks of a list either all pass, or the first one that does not
    ends the process with status 1; either way only probes and logger
    writes have happened. *)
Lemma gate_cases (all ps : list Prerequisite) (w : World) :
  ps ⊆ all ->
  (exists w' evs,
      all_pass ps w w'
      /\ forEach ps check_prerequisite w = Done tt w'
      /\ w_trace w' = w_trace w ++ evs /\ Forall (gate_event all) evs)
  \/ (exists before p after w1 w' evs,
      ps = before ++ p :: after
      /\ all_pass before w w1
      /\ check_prerequisite p w1 = Exited 1 w'
      /\ forEach ps check_prerequisite w = Exited 1 w'
      /\ w_trace w' = w_trace w ++ evs /\ Forall (gate_event all) evs).
Proof.
  revert w. induction ps as [|p ps IH]; intros w Hsub.
  - left. exists w, []. cbn. rewrite app_nil_r. by repeat split.
  - destruct (check_prerequisite_events all p w) as (w1 & evs1 & Hcheck & Htrace1 & Hevs1).
    { apply Hsub. by left. }
    destruct Hcheck as [Hdone | Hexit].
    + destruct (IH w1) as [(w' & evs & Hpass & Hrun & Htrace & Hevs)
                          | (before & q & after & v & w' & evs & -> & Hpass & Hq & Hrun & Htrace & Hevs)].
      { intros x Hx. apply Hsub. by right. }
      * left. exists w', (evs1 ++ evs). split; [by exists w1 |].
        split; [cbn; by rewrite bind_run, Hdone |].
        split; [by rewrite Htrace, Htrace1, app_assoc |].
        by apply Forall_app.
      * right. exists (p :: before), q, after, v, w', (evs1 ++ evs).
        split; [done |]. split; [by exists w1 |]. split; [done |].
        split; [cbn; by rewrite bind_run, Hdone |].
        split; [by rewrite Htrace, Htrace1, app_assoc |].
        by apply Forall_app.
    + right. exists [], p, ps, w, w1, evs1.
      split; [done |]. split; [done |]. split; [done |].
      split; [cbn; by rewrite bind_run, Hexit |]. done.
Qed.

(** A check fails, in the sense of [check_fails], exactly when it ends the
    process with status 1, and it returns exactly when it does not fail. *)
Lemma check_fails_exits (p : Prerequisite) (v : World) :
  check_fails p v <-> exists v', check_prerequisite p v = Exited 1 v'.
Proof.
  rewrite check_prerequisite_run. unfold check_fails, tool_missing, version_below_minimum.
  destruct (shell (command p) (w_ext v) (w_fs v)) as [[[out|detail] ext'] fs'].
  - cbn zeta. split.
    + intros [(d & e & f & [=]) | (o & e & f & [= <- _ _] & Hlt)].
      apply js_lt_lex_lt in Hlt. rewrite Hlt. eauto.
    + destruct (js_lt _ _) eqn:Hlt; intros [v' Hv']; [| done].
      right. exists out, ext', fs'. split; [done | by apply js_lt_lex_lt].
  - split; [eauto |]. intros _. left. eauto.
Qed.

Lemma check_passes_returns (p : Prerequisite) (v : World) :
  ~ check_fails p v <-> exists v', check_prerequisite p v = Done tt v'.
Proof.
  rewrite check_fails_exits, check_prerequisite_run.
  destruct (shell (command p) (w_ext v) (w_fs v)) as [[[out|detail] ext'] fs'].
  - cbn zeta. destruct (js_lt _ _).
    + split; [intros Hno; exfalso; apply Hno; eauto | by intros [v' ?]].
    + split; [eauto | intros _ [v' ?]; done].
  - split; [intros Hno; exfalso; apply Hno; eauto | by intros [v' ?]].
Qed.

(** What the gate does is no call on [fs] and no command but the version
    probes. *)
Lemma gate_events_probe_only (ps : list Prerequisite) (evs : list Event) :
  Forall (gate_event ps) evs ->
  fs_calls evs = [] /\ forall c, c ∈ commands evs -> c ∈ command <$> ps.
Proof.
  induction 1 as [|e evs He _ [IHfs IHcmd]]; [split; [done | by intros c ?%elem_of_nil] |].
  destruct e as [c [|]| | | |]; cbn in He; try done;
    (split; [exact IHfs |]); try exact IHcmd.
  intros c' Hc'. cbn in Hc'. apply elem_of_cons in Hc' as [-> | Hc'].
  - by apply bool_decide_unpack in He.
  - by apply IHcmd.
Qed.

(** C2: a prerequisite check fails exactly when its tool is missing (the
    probe cannot be run) or the version the probe prints is below the
    minimum; a check that fails ends the process with exit status 1, and a
    check that does not fail returns. In a run of the script, either the
    three checks pass, each in the world the one before it left, and
    provisioning starts from the world they leave; or the first check that
    fails ends the whole run with exit status 1 in the very world that check
    left, whatever would follow the gate does not run, and so no
    provisioning step has run. Up to that point the script has only logged
    and run version probes of the three prerequisites, Node.js, npm and Git:
    there was no call on the file system and no other command. *)
Theorem gate_guards_provisioning (w : World) :
  name <$> prerequisites = [lit "Node.js"; lit "npm"; lit "Git"]
  /\ (forall p v,
      (check_fails p v <-> exists v', check_prerequisite p v = Exited 1 v')
      /\ (~ check_fails p v <-> exists v', check_prerequisite p v = Done tt v')
      /\ ((exists v', check_prerequisite p v = Done tt v')
          \/ (exists v', check_prerequisite p v = Exited 1 v')))
  /\ ((exists w',
          all_pass prerequisites w w'
          /\ check_prerequisites w = Done tt w'
          /\ main w = provision w'
          /\ Forall (gate_event prerequisites) (since w w'))
      \/ (exists before p after w1 w',
          prerequisites = before ++ p :: after
          /\ all_pass before w w1
          /\ check_fails p w1
          /\ check_prerequisite p w1 = Exited 1 w'
          /\ check_prerequisites w = Exited 1 w'
          /\ main w = Exited 1 w'
          /\ (forall B (k : unit -> Prog B), (check_prerequisites ≫= k) w = Exited 1 w')
          /\ Forall (gate_event prerequisites) (since w w')
          /\ fs_calls (since w w') = []
          /\ (forall c, c ∈ commands (since w w') ->
              c ∈ [lit "node --version"; lit "npm --version"; lit "git --version"]))).
Proof.
  split; [reflexivity |]. split.
  - intros p v. split; [apply check_fails_exits |]. split; [apply check_passes_returns |].
    destruct (check_prerequisite_events [p] p v) as (v' & evs & [Hd | He] & _);
      [by left | eauto | eauto].
  - destruct (gate_cases prerequisites prerequisites w) as
      [(w' & evs & Hpass & Hrun & Htrace & Hevs)
      | (before & p & after & w1 & w' & evs & Hsplit & Hpass & Hp & Hrun & Htrace & Hevs)];
      [done | |].
    + left. exists w'. split; [done |]. split; [done |].
      split; [unfold main, check_prerequisites; by rewrite bind_run, Hrun |].
      by rewrite (since_app _ _ _ Htrace).
    + right. exists before, p, after, w1, w'.
      split; [done |]. split; [done |].
      split; [apply check_fails_exits; eauto |].
      split; [done |]. split; [done |].
      split; [unfold main, check_prerequisites; by rewrite bind_run, Hrun |].
      split; [intros B k; unfold check_prerequisites; by rewrite bind_run, Hrun |].
      rewrite (since_app _ _ _ Htrace).
      split; [done |]. exact (gate_events_probe_only _ _ Hevs).
Qed.

(** ** The provisioning steps *)

(** C7: the editor step probes with [nvim --version]. When the probe
    succeeds, the step logs that NeoVim is already installed and runs no
    other command: the package manager is not invoked. When the probe fails,
    and only then, it runs [sudo apt-get install neovim], once. *)
Theorem install_neovim_contract (w : World) :
  let probe := lit "nvim --version" in
  let install := lit "sudo apt-get install neovim" in
  let v := logged INFO (lit "Checking if NeoVim is installed...") w in
  match shell probe (w_ext v) (w_fs v) with
  | (ExecOk _, ext', fs') =>
      let w' := logged INFO (lit "NeoVim is already installed.")
                       (executed probe Inherit ext' fs' v) in
      install_neovim w = Done tt w'
      /\ commands (since w w') = [probe]
      /\ (install ∉ commands (since w w'))
      /\ (EvConsole Stdout (lit "NeoVim is already installed.") ∈ since w w')
  | (ExecFailed _, ext', fs') =>
      commands (since w (final_world (install_neovim w))) = [probe; install]
  end.
Proof.
  intros probe install v.
  assert (Hprobe := execSync_run probe Inherit v).
  assert (Hstart : install_neovim w =
            try_catch (execSync probe Inherit;; log (lit "NeoVim is already installed."))
              (fun _ => (log (lit "Installing NeoVim...");;
                         runCommand install;;
                         log (lit "NeoVim installation completed."))) v).
  { unfold install_neovim. by rewrite bind_run, log_run. }
  destruct (shell probe (w_ext v) (w_fs v)) as [[[out|detail] ext'] fs'].
  - intros w'.
    assert (E : install_neovim w = Done tt w').
    { rewrite Hstart. unfold try_catch. by rewrite bind_run, Hprobe, log_run. }
    split; [exact E |]. subst w' v. read_since.
    split; [reflexivity |]. split.
    + cbn. rewrite list_elem_of_singleton. subst install probe. vm_compute. discriminate.
    + set_solver.
  - rewrite Hstart. unfold try_catch. rewrite bind_run, Hprobe.
    rewrite bind_run, log_run. rewrite bind_run.
    set (u := logged INFO (lit "Installing NeoVim...") (executed probe Inherit ext' fs' v)).
    rewrite (runCommand_run install u).
    destruct (shell install (w_ext u) (w_fs u)) as [[[out|detail'] ext''] fs''].
    + rewrite log_run. cbn [final_world]. subst u v. by read_since.
    + cbn [final_world]. subst u v. by read_since.
Qed.

Lemma existsSync_run (p : Path) (w : World) :
  existsSync p w = Done (found p w) (record (EvFs (ExistsSync p)) w).
Proof. reflexivity. Qed.

(** [existsSync] never reports a path that is not there, and when the
    look-up goes through its answer is the tree's. *)
Lemma found_is_there (p : Path) (w : World) :
  found p w = true -> is_Some (node_at (w_fs w) (resolve p)).
Proof.
  unfold found. destruct (fs_refuses _ _ _); [done |]. apply bool_decide_eq_true_1.
Qed.

(** Logging does not change what [existsSync] answers. *)
Lemma found_logged (p : Path) (sev : Severity) (message : str) (w : World) :
  found p (logged sev message w) = found p w.
Proof. reflexivity. Qed.

Lemma found_looked_up (p : Path) (w : World) :
  fs_refuses (ExistsSync p) (w_ext w) (w_fs w) = None ->
  found p w = bool_decide (is_Some (node_at (w_fs w) (resolve p))).
Proof. unfold found. by intros ->. Qed.

(** A mutating call returns with the new tree, or throws and leaves the tree
    as it was. *)
Lemma fs_call_cases (call : FsCall) (errno : str) (op : FS -> option FS) (w : World) :
  (exists fs', op (w_fs w) = Some fs'
               /\ fs_call call errno op w = Done tt (with_fs fs' (record (EvFs call) w)))
  \/ (exists code, fs_call call errno op w
                   = Thrown (FsError code call) (record (EvFs call) w)).
Proof.
  unfold fs_call.
  destruct (fs_refuses call (w_ext w) (w_fs w)) as [refused|]; [right; eauto |].
  destruct (op (w_fs w)) as [fs'|]; [left; eauto | right; eauto].
Qed.

(** C6 (as amended): the distribution step asks [fs.existsSync] whether the
    configuration root under the home directory exists. The answer is yes
    only if the path is there, and it is the truth whenever the look-up goes
    through; a look-up that fails is answered no. On yes, the step calls the
    recursive delete on that path once; if the delete returns, exactly one
    clone follows it, and if the delete throws, the exception goes up with
    no clone attempted. On no (the path does not exist, or could not be
    looked up), the step runs the clone with no delete. The clone is the
    shallow clone ([--depth 1]) of the pinned branch ([-b v2.0]) into that
    path; there is no other command and no other call on the file system, so
    never a merge, and the clone is never skipped because the path exists. *)
Theorem install_nvchad_delete_then_clone (home : Path) (w : World) :
  HOME = Some home ->
  let nvimDir := path_join home [lit ".config"; lit "nvim"] in
  let clone := EvExec (clone_command nvimDir) Inherit in
  let looked := record (EvFs (ExistsSync nvimDir))
                  (logged INFO (lit "Checking if NVChad is installed...") w) in
  let done := actions (since w (final_world (install_nvchad w))) in
  (contains (lit "-b v2.0") (clone_command nvimDir)
   /\ contains (lit "--depth 1") (clone_command nvimDir)
   /\ contains (path_str nvimDir) (clone_command nvimDir))
  /\ (found nvimDir w = true -> is_Some (node_at (w_fs w) (resolve nvimDir)))
  /\ (fs_refuses (ExistsSync nvimDir) (w_ext w) (w_fs w) = None ->
      found nvimDir w = bool_decide (is_Some (node_at (w_fs w) (resolve nvimDir))))
  /\ if found nvimDir w
     then match rmdirSync nvimDir
                  (logged INFO (lit "Removing existing NVChad installation...") looked) with
          | Done _ _ =>
              done = [EvFs (ExistsSync nvimDir); EvFs (RmdirSync nvimDir); clone]
          | _ =>
              done = [EvFs (ExistsSync nvimDir); EvFs (RmdirSync nvimDir)]
              /\ exists e w', install_nvchad w = Thrown e w'
          end
     else done = [EvFs (ExistsSync nvimDir); clone].
Proof.
  intros Hhome nvimDir clone looked done. split.
  { unfold clone_command.
    replace (lit "git clone -b v2.0 https://github.com/NvChad/NvChad ")
      with (lit "git clone " ++ lit "-b v2.0" ++ lit " https://github.com/NvChad/NvChad ")
      by (vm_compute; reflexivity).
    replace (lit " --depth 1") with (lit " " ++ lit "--depth 1")
      by (vm_compute; reflexivity).
    repeat split; find_needle. }
  split; [apply found_is_there |]. split; [apply found_looked_up |].
  assert (Hstart : install_nvchad w =
    ((if found nvimDir w then
        log (lit "Removing existing NVChad installation...");;
        rmdirSync nvimDir;;
        log (lit "Existing NVChad installation removed.")
      else mret tt);;
     log (lit "Installing NVChad...");;
     runCommand (clone_command nvimDir);;
     log (lit "NVChad installation completed.");;
     mret nvimDir) looked).
  { unfold install_nvchad, join_home. rewrite bind_run, log_run, Hhome.
    rewrite bind_run. cbn [mret prog_ret]. by rewrite bind_run, existsSync_run. }
  assert (Hclone : forall u : World,
    exists x y x' y', final_world
      ((log (lit "Installing NVChad...");;
        runCommand (clone_command nvimDir);;
        log (lit "NVChad installation completed.");;
        mret nvimDir) u)
    = logged x' y' (logged x y (executed (clone_command nvimDir) Inherit
                    (snd (fst (shell (clone_command nvimDir) (w_ext u) (w_fs u))))
                    (snd (shell (clone_command nvimDir) (w_ext u) (w_fs u)))
                    (logged INFO (lit "Installing NVChad...") u)))).
  { intros u. rewrite bind_run, log_run, bind_run, runCommand_run.
    cbn [logged w_ext w_fs].
    destruct (shell (clone_command nvimDir) (w_ext u) (w_fs u)) as [[[out|detail] ext'] fs'].
    - do 4 eexists. rewrite bind_run, log_run. reflexivity.
    - do 4 eexists. reflexivity. }
  subst done. rewrite Hstart.
  destruct (found nvimDir w).
  - rewrite bind_run, bind_run, log_run, bind_run.
    set (u := logged INFO (lit "Removing existing NVChad installation...") looked).
    destruct (fs_call_cases (RmdirSync nvimDir) (lit "ENOTDIR")
                (fun fs => rm_rf fs (resolve nvimDir)) u) as [(fs' & _ & E) | (code & E)];
      fold (rmdirSync nvimDir) in E; rewrite E.
    + rewrite log_run.
      destruct (Hclone (logged INFO (lit "Existing NVChad installation removed.")
                  (with_fs fs' (record (EvFs (RmdirSync nvimDir)) u))))
        as (x & y & x' & y' & ->); subst u looked; by read_since.
    + split; [| eauto]. cbn [final_world]. subst u looked. by read_since.
  - rewrite bind_run. cbn [mret prog_ret].
    destruct (Hclone looked) as (x & y & x' & y' & ->); subst looked; by read_since.
Qed.

(** When the distribution step returns, the tree it leaves is the tree the
    clone left: the configuration step starts from the fresh clone. *)
Lemma install_nvchad_leaves_clone (w w' : World) (nvimDir : Path) :
  install_nvchad w = Done nvimDir w' ->
  exists u out,
    shell (clone_command nvimDir) (w_ext u) (w_fs u) = (ExecOk out, w_ext w', w_fs w').
Proof.
  unfold install_nvchad, join_home. rewrite bind_run, log_run.
  destruct HOME as [home|]; [| by rewrite bind_run].
  rewrite bind_run. cbn [mret prog_ret]. rewrite bind_run, existsSync_run.
  set (dir := path_join home [lit ".config"; lit "nvim"]).
  assert (Htail : forall u : World,
    (log (lit "Installing NVChad...");;
     runCommand (clone_command dir);;
     log (lit "NVChad installation completed.");;
     mret dir) u = Done nvimDir w' ->
    exists v out,
      shell (clone_command nvimDir) (w_ext v) (w_fs v) = (ExecOk out, w_ext w', w_fs w')).
  { intros u. rewrite bind_run, log_run, bind_run, runCommand_run.
    set (v := logged INFO (lit "Installing NVChad...") u).
    destruct (shell (clone_command dir) (w_ext v) (w_fs v)) as [[[out|detail] ext'] fs'] eqn:E;
      [| done].
    rewrite bind_run, log_run. cbn [mret prog_ret]. intros [= <- <-].
    exists v, out. exact E. }
  destruct (found _ _); rewrite bind_run.
  - rewrite bind_run, log_run, bind_run.
    match goal with |- context [rmdirSync dir ?u] => set (u0 := u) end.
    destruct (fs_call_cases (RmdirSync dir) (lit "ENOTDIR")
                (fun fs => rm_rf fs (resolve dir)) u0) as [(fs' & _ & E) | (code & E)];
      fold (rmdirSync dir) in E; rewrite E; [| done].
    rewrite log_run. apply Htail.
  - cbn [mret prog_ret]. apply Htail.
Qed.

Lemma resolve_join (p : Path) (more : list str) :
  resolve (path_join p more) = resolve p ++ more.
Proof.
  unfold resolve, path_join. cbn. destruct (absolute p); [done |].
  by rewrite app_assoc.
Qed.




(** ** Composing what programs add to the trace *)

Lemma well_logged_app (a b : list Event) :
  well_logged a -> well_logged b -> well_logged (a ++ b).
Proof. induction 1; intros Hb; cbn; [done | constructor; auto ..]. Qed.

Section Adds.
Variable P : list Event -> Prop.
Hypothesis P_nil : P [].
Hypothesis P_app : forall a b, P a -> P b -> P (a ++ b).
Hypothesis P_entry : forall e,
  is_iso8601 (entry_timestamp e) = true ->
  P [EvLogWrite (entry_severity e) (render_entry e);
     EvConsole (console_of (entry_severity e)) (entry_message e)].

Lemma adds_ret {A} (a : A) : adds P (mret a).
Proof.
  intros w. split; [| done]. exists []. cbn. by rewrite app_nil_r.
Qed.

Lemma adds_throw {A} (e : JsError) : adds P (throw (A := A) e).
Proof.
  intros w. split; [| done]. exists []. cbn. by rewrite app_nil_r.
Qed.

Lemma adds_exit {A} : adds P (process_exit (A := A) 1).
Proof.
  intros w. split; [| by intros code [= <-]]. exists []. cbn. by rewrite app_nil_r.
Qed.

Lemma adds_bind {A B} (m : Prog A) (k : A -> Prog B) :
  adds P m -> (forall a, adds P (k a)) -> adds P (m ≫= k).
Proof.
  intros Hm Hk w. rewrite bind_run.
  destruct (Hm w) as [(evs & Htrace & Hevs) Hcode].
  destruct (m w) as [a v|code v|e v]; cbn in *.
  - destruct (Hk a v) as [(evs' & Htrace' & Hevs') Hcode'].
    split; [| done]. exists (evs ++ evs').
    split; [by rewrite Htrace', Htrace, app_assoc | by apply P_app].
  - split; [eauto | done].
  - split; [eauto | done].
Qed.

Lemma adds_try_catch {A} (body : Prog A) (handler : JsError -> Prog A) :
  adds P body -> (forall e, adds P (handler e)) -> adds P (try_catch body handler).
Proof.
  intros Hbody Hhandler w. unfold try_catch.
  destruct (Hbody w) as [(evs & Htrace & Hevs) Hcode].
  destruct (body w) as [a v|code v|e v]; cbn in *.
  - split; [eauto | done].
  - split; [eauto | done].
  - destruct (Hhandler e v) as [(evs' & Htrace' & Hevs') Hcode'].
    split; [| done]. exists (evs ++ evs').
    split; [by rewrite Htrace', Htrace, app_assoc | by apply P_app].
Qed.

Lemma adds_forEach {A} (l : list A) (f : A -> Prog unit) :
  (forall x, adds P (f x)) -> adds P (forEach l f).
Proof.
  intros Hf. induction l as [|x l IH]; cbn [forEach].
  - apply adds_ret.
  - apply adds_bind; [apply Hf | intros _; apply IH].
Qed.

Lemma adds_log (message : str) : adds P (log message).
Proof.
  intros w. rewrite log_run. split; [| done]. eexists. split; [reflexivity |].
  apply (P_entry {| entry_timestamp := clock_iso (w_ticks w); entry_severity := INFO;
                    entry_message := message |}), clock_iso_ok.
Qed.

Lemma adds_logError (message : str) : adds P (logError message).
Proof.
  intros w. rewrite logError_run. split; [| done]. eexists. split; [reflexivity |].
  apply (P_entry {| entry_timestamp := clock_iso (w_ticks w); entry_severity := ERROR;
                    entry_message := message |}), clock_iso_ok.
Qed.

Lemma adds_execSync (cmd : str) (stdio : Stdio) :
  P [EvExec cmd stdio] -> adds P (execSync cmd stdio).
Proof.
  intros Hexec w. rewrite execSync_run.
  destruct (shell cmd (w_ext w) (w_fs w)) as [[[out|detail] ext'] fs'];
    (split; [eauto | done]).
Qed.

Lemma adds_existsSync (p : Path) : P [EvFs (ExistsSync p)] -> adds P (existsSync p).
Proof. intros Hfs w. split; [eauto | done]. Qed.

Lemma adds_fs_call (call : FsCall) (errno : str) (op : FS -> option FS) :
  P [EvFs call] -> adds P (fs_call call errno op).
Proof.
  intros Hfs w.
  destruct (fs_call_cases call errno op w) as [(fs' & _ & ->) | (code & ->)];
    (split; [eauto | done]).
Qed.

Lemma adds_join_home (more : list str) : adds P (join_home more).
Proof. unfold join_home. destruct HOME; [apply adds_ret | apply adds_throw]. Qed.

(** One step of the decomposition of a program into its parts. *)
Ltac adds_step :=
  lazymatch goal with
  | |- adds _ (_ ≫= _) => apply adds_bind; [| intros ?]
  | |- adds _ (try_catch _ _) => apply adds_try_catch; [| intros ?]
  | |- adds _ (forEach _ _) => apply adds_forEach; intros ?
  | |- adds _ (if ?b then _ else _) => destruct b
  | |- adds _ (log _) => apply adds_log
  | |- adds _ (logError _) => apply adds_logError
  | |- adds _ (execSync _ _) => apply adds_execSync
  | |- adds _ (existsSync _) => apply adds_existsSync
  | |- adds _ (fs_call _ _ _) => apply adds_fs_call
  | |- adds _ (join_home _) => apply adds_join_home
  | |- adds _ (process_exit 1) => apply adds_exit
  | |- adds _ (mret _) => apply adds_ret
  end.

Hypothesis P_exec : forall cmd stdio, P [EvExec cmd stdio].

Lemma adds_check_prerequisite (prereq : Prerequisite) : adds P (check_prerequisite prereq).
Proof. unfold check_prerequisite. repeat adds_step; apply P_exec. Qed.

Lemma adds_runCommand (cmd : str) : adds P (runCommand cmd).
Proof. unfold runCommand. repeat adds_step; apply P_exec. Qed.

(** The same, with the command runner taken as a whole. *)
Ltac adds_step_command :=
  lazymatch goal with
  | |- adds _ (runCommand _) => apply adds_runCommand
  | _ => adds_step
  end.

Lemma adds_install_neovim : adds P install_neovim.
Proof. unfold install_neovim. repeat adds_step_command; apply P_exec. Qed.

Lemma adds_install_lsps : adds P install_lsps.
Proof. unfold install_lsps. repeat adds_step_command. Qed.

Hypothesis P_fs : forall call, P [EvFs call].

Lemma adds_install_font : adds P install_font.
Proof.
  unfold install_font, mkdirSync, unlinkSync.
  repeat adds_step_command; apply P_fs.
Qed.

Lemma adds_install_nvchad : adds P install_nvchad.
Proof.
  unfold install_nvchad, rmdirSync.
  repeat adds_step_command; apply P_fs.
Qed.

Lemma adds_configure_nvchad (nvimDir : Path) : adds P (configure_nvchad nvimDir).
Proof.
  unfold configure_nvchad, copy_config, mkdirSync, copyFileSync.
  repeat adds_step; apply P_fs.
Qed.

Hypothesis P_end : P [EvLogEnd].

Lemma adds_main : adds P main.
Proof.
  unfold main, provision, check_prerequisites.
  apply adds_bind; [apply adds_forEach, adds_check_prerequisite | intros _].
  apply adds_bind; [apply adds_install_neovim | intros _].
  apply adds_bind; [apply adds_install_font | intros _].
  apply adds_bind; [apply adds_install_nvchad | intros nvimDir].
  apply adds_bind; [apply adds_configure_nvchad | intros _].
  apply adds_bind; [apply adds_install_lsps | intros _].
  apply adds_bind; [apply adds_log | intros _].
  intros w. split; [eauto | done].
Qed.

End Adds.

(** ** More on the prerequisites check *)

Lemma trimStart_whitespace (before s : str) :
  Forall (fun c => is_js_whitespace c = true) before ->
  trimStart (before ++ s) = trimStart s.
Proof. induction 1 as [|c before Hc _ IH]; cbn; [done | by rewrite Hc]. Qed.

Lemma trimStart_keeps (s : str) :
  (forall c, head s = Some c -> is_js_whitespace c = false) -> trimStart s = s.
Proof. destruct s as [|c s]; cbn; [done |]. intros Hc. by rewrite (Hc c). Qed.

(** X1: [trim] removes the whitespace around a string and nothing else: for a
    string that neither starts nor ends with whitespace, surrounded by any
    whitespace and line terminators, it gives back the string. *)
Theorem trim_strips_surrounding_whitespace (before s after : str) :
  Forall (fun c => is_js_whitespace c = true) before ->
  Forall (fun c => is_js_whitespace c = true) after ->
  (forall c, head s = Some c -> is_js_whitespace c = false) ->
  (forall c, last s = Some c -> is_js_whitespace c = false) ->
  trim (before ++ s ++ after) = s.
Proof.
  intros Hbefore Hafter Hhead Hlast. unfold trim.
  rewrite (trimStart_whitespace _ _ Hbefore).
  destruct s as [|c s].
  - cbn [app]. rewrite <- (app_nil_r after), (trimStart_whitespace _ _ Hafter).
    reflexivity.
  - rewrite (trimStart_keeps ((c :: s) ++ after)) by (intros x [= <-]; by apply Hhead).
    rewrite reverse_app, trimStart_whitespace by (by apply Forall_reverse).
    rewrite trimStart_keeps; [apply reverse_involutive |].
    intros x Hx. apply Hlast. by rewrite <- head_reverse.
Qed.

Lemma js_lt_irrefl (a : str) : js_lt a a = false.
Proof. induction a as [|x a IH]; cbn; [done |]. by rewrite N.ltb_irrefl. Qed.

(** X2: a detected version equal to the minimum passes: the check fails
    only on [<]. The check then leaves the detected version in the log and
    nothing else. *)
Theorem minimum_itself_passes (prereq : Prerequisite) (w : World) (out : str) ext' fs' :
  shell (command prereq) (w_ext w) (w_fs w) = (ExecOk out, ext', fs') ->
  replace_leading_v (trim out) = replace_leading_v (minVersion prereq) ->
  let w' := logged INFO (version_message prereq (trim out))
                   (executed (command prereq) Pipe ext' fs' w) in
  check_prerequisite prereq w = Done tt w'
  /\ entries ERROR (since w w') = []
  /\ commands (since w w') = [command prereq].
Proof.
  intros Hshell Hsame w'.
  assert (Hrun := check_prerequisite_run prereq w).
  rewrite Hshell in Hrun. cbn zeta in Hrun.
  rewrite Hsame, js_lt_irrefl in Hrun.
  split; [exact Hrun |]. subst w'. by read_since.
Qed.

(** X3: where the detected version and the minimum (both without a leading
    v) differ in their first code unit, that unit alone decides: a greater
    one passes and a smaller one fails, whatever follows. So output that
    starts with a letter passes a minimum that starts with a digit. *)
Theorem first_code_unit_decides (prereq : Prerequisite) (w : World) (out : str)
    ext' fs' (c m : N) (rest rest' : str) :
  shell (command prereq) (w_ext w) (w_fs w) = (ExecOk out, ext', fs') ->
  replace_leading_v (trim out) = c :: rest ->
  replace_leading_v (minVersion prereq) = m :: rest' ->
  ((m < c)%N -> returned (check_prerequisite prereq w) = true)
  /\ ((c < m)%N -> exit_code (check_prerequisite prereq w) = Some 1%Z).
Proof.
  intros Hshell Hd Hm.
  rewrite check_prerequisite_run, Hshell. cbn zeta. rewrite Hd, Hm. cbn [js_lt].
  split; intros Hlt.
  - destruct (N.ltb_spec c m) as [? | _]; [lia |].
    apply N.ltb_lt in Hlt. by rewrite Hlt.
  - apply N.ltb_lt in Hlt. by rewrite Hlt.
Qed.

(** ** Following a plan *)

Lemma actions_cons (e : Event) (evs : list Event) :
  actions (e :: evs) = if is_action e then e :: actions evs else actions evs.
Proof. unfold actions. cbn. by destruct (is_action e). Qed.

Lemma fs_calls_actions (evs : list Event) : fs_calls (actions evs) = fs_calls evs.
Proof.
  induction evs as [|e evs IH]; [done |].
  rewrite actions_cons. unfold fs_calls in *. destruct e; cbn; by rewrite ?IH.
Qed.

Lemma actions_app (a b : list Event) : actions (a ++ b) = actions a ++ actions b.
Proof. apply filter_app. Qed.

Lemma follows_since {A} (w : World) (plan : list Event) (m : Prog A) :
  follows w plan m ->
  actions (since w (final_world (m w))) `prefix_of` plan
  /\ (returned (m w) = true -> actions (since w (final_world (m w))) = plan).
Proof. intros (evs & Htrace & Hpre & Hall). by rewrite (since_app _ _ _ Htrace). Qed.

Lemma follows_ret {A} (w : World) (a : A) : follows w [] (mret a).
Proof. exists []. cbn. by rewrite app_nil_r. Qed.

Lemma follows_log (w : World) (message : str) : follows w [] (log message).
Proof. unfold follows. rewrite log_run. eexists. split; [reflexivity | done]. Qed.

Lemma follows_existsSync (w : World) (p : Path) :
  follows w [EvFs (ExistsSync p)] (existsSync p).
Proof. unfold follows. rewrite existsSync_run. eexists. split; [reflexivity | done]. Qed.

Lemma follows_fs_call (w : World) (call : FsCall) (errno : str) (op : FS -> option FS) :
  follows w [EvFs call] (fs_call call errno op).
Proof.
  unfold follows.
  destruct (fs_call_cases call errno op w) as [(fs' & _ & ->) | (code & ->)];
    (eexists; split; [reflexivity | done]).
Qed.

Lemma follows_runCommand (w : World) (cmd : str) :
  follows w [EvExec cmd Inherit] (runCommand cmd).
Proof.
  unfold follows. rewrite runCommand_run.
  destruct (shell cmd (w_ext w) (w_fs w)) as [[[out|detail] ext'] fs'];
    (eexists; split; [cbn; rewrite <- ?app_assoc; reflexivity | done]).
Qed.

Lemma follows_check_prerequisite (w : World) (prereq : Prerequisite) :
  follows w [EvExec (command prereq) Pipe] (check_prerequisite prereq).
Proof.
  unfold follows. rewrite check_prerequisite_run.
  destruct (shell (command prereq) (w_ext w) (w_fs w)) as [[[out|detail] ext'] fs'];
    [cbn zeta; destruct (js_lt _ _) |];
    (eexists; split; [cbn; rewrite <- ?app_assoc; reflexivity | done]).
Qed.

(** A step and what comes after it follow their plans one after the other. *)
Lemma follows_bind {A B} (w : World) (first rest plan : list Event)
    (m : Prog A) (k : A -> Prog B) :
  follows w first m ->
  (forall a v, m w = Done a v -> follows v rest (k a)) ->
  plan = first ++ rest ->
  follows w plan (m ≫= k).
Proof.
  intros (evs & Htrace & Hpre & Hall) Hk ->. unfold follows. rewrite bind_run.
  destruct (m w) as [a v|code v|e v] eqn:Hm; cbn in *.
  - destruct (Hk a v eq_refl) as (evs' & Htrace' & Hpre' & Hall').
    exists (evs ++ evs'). rewrite actions_app, Hall by done.
    split; [by rewrite Htrace', Htrace, app_assoc |].
    split; [by apply prefix_app | intros Hr; by rewrite Hall'].
  - exists evs. split; [done |]. split; [by apply prefix_app_r | done].
  - exists evs. split; [done |]. split; [by apply prefix_app_r | done].
Qed.

Lemma follows_forEach (ps : list Prerequisite) (w : World) :
  follows w (gate_plan ps) (forEach ps check_prerequisite).
Proof.
  revert w. induction ps as [|p ps IH]; intros w; cbn [forEach].
  - apply follows_ret.
  - eapply follows_bind; [apply follows_check_prerequisite | intros _ v _; apply IH | done].
Qed.

(** Takes the next statement of a step, whose own plan is [first]. *)
Tactic Notation "follow" constr(first) "by" tactic3(tac) :=
  eapply (follows_bind _ first); [ tac | intros ? ? ? | reflexivity ].

(** ** The font step and the language servers *)

Lemma follows_install_font (home : Path) (w : World) :
  HOME = Some home ->
  follows w
    (font_plan home (found (path_join home [lit ".local"; lit "share"; lit "fonts"]) w))
    install_font.
Proof.
  intros Hhome. unfold install_font, join_home, font_plan. rewrite Hhome.
  set (fontDir := path_join home _).
  follow (@nil Event) by apply follows_log.
  match goal with E : log _ w = Done _ ?v |- _ =>
    rewrite log_run in E; injection E as _ <- end.
  follow (@nil Event) by apply follows_ret.
  match goal with E : mret _ _ = Done ?a _ |- _ => injection E as <- <- end.
  follow [EvFs (ExistsSync fontDir)] by apply follows_existsSync.
  match goal with E : existsSync _ _ = Done ?a _ |- _ =>
    rewrite existsSync_run in E; injection E as <- <- end.
  rewrite found_logged. set (present := found fontDir w).
  follow (if present then [] else [EvFs (MkdirSync fontDir)])
    by (destruct present; [apply follows_ret | apply follows_fs_call]).
  follow [EvExec curl_command Inherit] by apply follows_runCommand.
  follow [EvExec (unzip_command fontDir) Inherit] by apply follows_runCommand.
  follow [EvFs (UnlinkSync (relative fontZip))] by apply follows_fs_call.
  follow [EvExec (lit "fc-cache -f") Inherit] by apply follows_runCommand.
  apply follows_log.
Qed.

(** Reads a statement that has returned: the value and the world it left. *)
Ltac returned_from :=
  lazymatch goal with
  | E : log _ _ = Done _ _ |- _ => rewrite log_run in E; injection E as _ <-
  | E : mret _ _ = Done _ _ |- _ => injection E as <- <-
  | E : existsSync _ _ = Done _ _ |- _ => rewrite existsSync_run in E; injection E as <- <-
  end.

(** X4: the font step, with HOME set, asks [fs.existsSync] for the font
    directory and calls the recursive [mkdir] exactly when the answer is no,
    that is, when the directory is absent or could not be looked up (a yes
    is only given for a path that is there, and the answer is the truth
    whenever the look-up goes through). Then it always downloads, extracts,
    deletes the archive and refreshes the font cache, in this order:
    whatever happens, what the step did is a beginning of that plan, and
    when the step returns it did all of it. So the archive is never deleted
    before it was extracted, there is no check that skips the download, and
    when the step ends the process the exit status is 1. *)
Theorem install_font_follows_plan (home : Path) (w : World) :
  HOME = Some home ->
  let fontDir := path_join home [lit ".local"; lit "share"; lit "fonts"] in
  let answer := found fontDir w in
  let done := actions (since w (final_world (install_font w))) in
  (answer = true -> is_Some (node_at (w_fs w) (resolve fontDir)))
  /\ (fs_refuses (ExistsSync fontDir) (w_ext w) (w_fs w) = None ->
      answer = bool_decide (is_Some (node_at (w_fs w) (resolve fontDir))))
  /\ done `prefix_of` font_plan home answer
  /\ (returned (install_font w) = true -> done = font_plan home answer)
  /\ (forall code, exit_code (install_font w) = Some code -> code = 1%Z).
Proof.
  intros Hhome fontDir answer done.
  destruct (follows_since _ _ _ (follows_install_font home w Hhome)) as [Hpre Hall].
  split; [apply found_is_there |]. split; [apply found_looked_up |].
  split; [exact Hpre |]. split; [exact Hall |].
  apply (adds_install_font (fun _ => True)); done.
Qed.

Lemma follows_install_lsps (w : World) : follows w lsps_plan install_lsps.
Proof.
  unfold install_lsps, lsps_plan.
  follow (@nil Event) by apply follows_log.
  follow [EvExec pyright_command Inherit] by apply follows_runCommand.
  follow [EvExec tsserver_command Inherit] by apply follows_runCommand.
  apply follows_log.
Qed.

(** X5: the language-server step runs the global install of pyright and
    then that of typescript-language-server, with no call on the file system:
    what it did is a beginning of these two commands, both when it returns;
    when the first install fails the second is not attempted, and the step
    ends by returning or by exit status 1, never in an exception. *)
Theorem install_lsps_installs_both_or_stops (w : World) :
  let done := since w (final_world (install_lsps w)) in
  actions done `prefix_of` lsps_plan
  /\ (returned (install_lsps w) = true -> actions done = lsps_plan)
  /\ (returned (install_lsps w) = true \/ exit_code (install_lsps w) = Some 1%Z)
  /\ (exit_code (runCommand pyright_command
                   (logged INFO (lit "Installing LSPs for Python and TypeScript...") w))
      = Some 1%Z ->
      exit_code (install_lsps w) = Some 1%Z /\ commands done = [pyright_command]).
Proof.
  intros done.
  destruct (follows_since _ _ _ (follows_install_lsps w)) as [Hpre Hall].
  split; [exact Hpre |]. split; [exact Hall |]. subst done.
  unfold install_lsps. rewrite bind_run, log_run, bind_run.
  set (v := logged INFO _ w). fold pyright_command tsserver_command.
  rewrite (runCommand_run pyright_command v).
  destruct (shell pyright_command (w_ext v) (w_fs v)) as [[[out|detail] ext'] fs'].
  - split; [| done]. rewrite bind_run, runCommand_run.
    destruct (shell tsserver_command _ _) as [[[out'|detail'] ext''] fs''].
    + rewrite log_run. by left.
    + by right.
  - split; [by right |]. intros _. split; [done |].
    cbn [final_world]. subst v. by read_since.
Qed.

(** ** The other steps and their plans *)

Lemma follows_install_neovim (w : World) :
  follows w (neovim_plan (succeeds (lit "nvim --version") w)) install_neovim.
Proof.
  unfold install_neovim, neovim_plan, succeeds.
  follow (@nil Event) by apply follows_log. returned_from.
  cbn [logged w_ext w_fs]. set (v := logged INFO _ w).
  change (w_ext w) with (w_ext v). change (w_fs w) with (w_fs v).
  unfold follows, try_catch. rewrite bind_run, execSync_run.
  destruct (shell (lit "nvim --version") (w_ext v) (w_fs v)) as [[[out|detail] ext'] fs'].
  - rewrite log_run. eexists. split; [cbn; rewrite <- ?app_assoc; reflexivity | done].
  - set (v' := executed _ Inherit ext' fs' v).
    assert (Hhandler : follows v' [EvExec (lit "sudo apt-get install neovim") Inherit]
              (log (lit "Installing NeoVim...");;
               runCommand (lit "sudo apt-get install neovim");;
               log (lit "NeoVim installation completed."))).
    { follow (@nil Event) by apply follows_log.
      follow [EvExec (lit "sudo apt-get install neovim") Inherit]
        by apply follows_runCommand.
      apply follows_log. }
    destruct Hhandler as (evs & Htrace & Hpre & Hall).
    exists (EvExec (lit "nvim --version") Inherit :: evs).
    split; [rewrite Htrace; subst v'; cbn; by rewrite <- app_assoc |].
    rewrite actions_cons. cbn [is_action].
    split; [by apply prefix_cons | intros Hr; by rewrite Hall].
Qed.

Lemma follows_install_nvchad (home : Path) (w : World) :
  HOME = Some home ->
  follows w
    (nvchad_plan home (found (path_join home [lit ".config"; lit "nvim"]) w))
    install_nvchad.
Proof.
  intros Hhome. unfold install_nvchad, join_home, nvchad_plan. rewrite Hhome.
  set (nvimDir := path_join home _).
  follow (@nil Event) by apply follows_log. returned_from.
  follow (@nil Event) by apply follows_ret. returned_from.
  follow [EvFs (ExistsSync nvimDir)] by apply follows_existsSync. returned_from.
  rewrite found_logged. set (present := found nvimDir w).
  follow (if present then [EvFs (RmdirSync nvimDir)] else []) by idtac.
  { destruct present; [| apply follows_ret].
    follow (@nil Event) by apply follows_log.
    follow [EvFs (RmdirSync nvimDir)] by apply follows_fs_call.
    apply follows_log. }
  follow (@nil Event) by apply follows_log.
  follow [EvExec (clone_command nvimDir) Inherit] by apply follows_runCommand.
  follow (@nil Event) by apply follows_log.
  apply follows_ret.
Qed.

Lemma follows_copies (files : list ConfigFile) (w : World) :
  follows w ((fun file => EvFs (CopyFileSync (src file) (dest file))) <$> files)
    (forEach files copy_config).
Proof.
  revert w. induction files as [|file files IH]; intros w; cbn [forEach].
  - apply follows_ret.
  - eapply (follows_bind _ [EvFs (CopyFileSync (src file) (dest file))]);
      [| intros _ v _; apply IH | reflexivity].
    unfold copy_config, copyFileSync.
    follow [EvFs (CopyFileSync (src file) (dest file))] by apply follows_fs_call.
    apply follows_log.
Qed.

Lemma follows_configure_nvchad (nvimDir : Path) (w : World) :
  follows w
    (configure_plan nvimDir (found (path_join nvimDir [lit "lua"; lit "custom"]) w))
    (configure_nvchad nvimDir).
Proof.
  unfold configure_nvchad, configure_plan. cbn zeta.
  set (customDir := path_join nvimDir _).
  follow (@nil Event) by apply follows_log. returned_from.
  follow [EvFs (ExistsSync customDir)] by apply follows_existsSync. returned_from.
  rewrite found_logged. set (present := found customDir w).
  follow (if present then [] else [EvFs (MkdirSync customDir)])
    by (destruct present; [apply follows_ret | apply follows_fs_call]).
  eapply follows_bind; [apply follows_copies | intros; apply follows_log |].
  by rewrite app_nil_r.
Qed.

(** ** Whole runs *)

Lemma bind_Done {A B} (m : Prog A) (k : A -> Prog B) (w w' : World) (b : B) :
  (m ≫= k) w = Done b w' -> exists a v, m w = Done a v /\ k a v = Done b w'.
Proof. rewrite bind_run. destruct (m w) as [a v| |]; [eauto | done | done]. Qed.

Lemma returned_Done (r : Result unit) :
  returned r = true -> r = Done tt (final_world r).
Proof. by destruct r as [[] ?| |]. Qed.

(** X6: everything the script writes to the log stream and to the console
    goes through the logger: over a whole run, each write to the stream is
    a rendered entry with an ISO-8601 timestamp and is followed at once by
    the same message on the console stream of its severity, and nothing
    that was in the trace before is changed. *)
Theorem main_logs_through_the_logger (w : World) :
  w_trace w `prefix_of` w_trace (final_world (main w))
  /\ well_logged (since w (final_world (main w))).
Proof.
  destruct (adds_main well_logged) with (w := w) as [(evs & Htrace & Hevs) _].
  - constructor.
  - apply well_logged_app.
  - intros e He. by repeat constructor.
  - intros. by repeat constructor.
  - intros. by repeat constructor.
  - by repeat constructor.
  - split; [by exists evs | by rewrite (since_app _ _ _ Htrace)].
Qed.

Lemma ends_log_after_base (message : str) :
  ends_log_after message (log message;; emit EvLogEnd).
Proof.
  intros w. rewrite bind_run, log_run. cbn.
  eexists. split; [rewrite <- app_assoc; reflexivity |].
  exists [], (clock_iso (w_ticks w)). split; [done | apply not_elem_of_nil].
Qed.

Lemma ends_log_after_bind {A} (message : str) (m : Prog A) (k : A -> Prog unit) :
  adds (fun evs => EvLogEnd ∉ evs) m ->
  (forall a, ends_log_after message (k a)) ->
  ends_log_after message (m ≫= k).
Proof.
  intros Hm Hk w. rewrite bind_run.
  destruct (Hm w) as [(evs & Htrace & Hevs) _].
  destruct (m w) as [a v|code v|e v]; cbn in *; [| eauto | eauto].
  destruct (Hk a v) as (evs' & Htrace' & Hend).
  exists (evs ++ evs'). split; [by rewrite Htrace', Htrace, app_assoc |].
  destruct (returned (k a v)).
  - destruct Hend as (before & stamp & -> & Hbefore).
    exists (evs ++ before), stamp. split; [by rewrite <- app_assoc |].
    rewrite not_elem_of_app. done.
  - rewrite not_elem_of_app. done.
Qed.

(** X7: a run ends in one of three ways: the script returns, it ends the
    process with exit status 1 (no other status is ever used), or an
    exception goes up. [logStream.end()] is called only when the script
    runs to its end, as the last thing it does, right after logging
    [Setup completed successfully!]; on every other path the stream is
    left open. *)
Theorem main_ends_the_log_only_on_success (w : World) :
  let r := main w in
  let done := lit "Setup completed successfully!" in
  (forall code, exit_code r = Some code -> code = 1%Z)
  /\ (returned r = true ->
      exists before stamp,
        since w (final_world r)
        = before ++ [EvLogWrite INFO (render_entry
                       {| entry_timestamp := stamp; entry_severity := INFO;
                          entry_message := done |});
                     EvConsole Stdout done; EvLogEnd]
        /\ EvLogEnd ∉ before)
  /\ (returned r = false -> EvLogEnd ∉ since w (final_world r)).
Proof.
  intros r done. split.
  { apply (adds_main (fun _ => True)); done. }
  assert (Hnil : EvLogEnd ∉ @nil Event) by apply not_elem_of_nil.
  assert (Happ : forall a b : list Event, EvLogEnd ∉ a -> EvLogEnd ∉ b -> EvLogEnd ∉ a ++ b)
    by (intros a b Ha Hb; by rewrite not_elem_of_app).
  assert (Hentry : forall e : LogEntry, is_iso8601 (entry_timestamp e) = true ->
            EvLogEnd ∉ [EvLogWrite (entry_severity e) (render_entry e);
                        EvConsole (console_of (entry_severity e)) (entry_message e)]).
  { intros e _. rewrite !not_elem_of_cons. repeat split; try done. }
  assert (Hexec : forall cmd stdio, EvLogEnd ∉ [EvExec cmd stdio]).
  { intros. rewrite !not_elem_of_cons. repeat split; try done. }
  assert (Hfs : forall call, EvLogEnd ∉ [EvFs call]).
  { intros. rewrite !not_elem_of_cons. repeat split; try done. }
  assert (Hends : ends_log_after done main).
  { unfold main, provision, check_prerequisites.
    apply ends_log_after_bind;
      [by apply adds_forEach, adds_check_prerequisite | intros _].
    apply ends_log_after_bind; [by apply adds_install_neovim | intros _].
    apply ends_log_after_bind; [by apply adds_install_font | intros _].
    apply ends_log_after_bind; [by apply adds_install_nvchad | intros nvimDir].
    apply ends_log_after_bind; [by apply adds_configure_nvchad | intros _].
    apply ends_log_after_bind; [by apply adds_install_lsps | intros _].
    apply ends_log_after_base. }
  destruct (Hends w) as (evs & Htrace & Hend). fold r in Htrace, Hend.
  rewrite (since_app _ _ _ Htrace).
  destruct (returned r); split; done.
Qed.

Lemma follows_Done {A} (w v : World) (plan : list Event) (m : Prog A) (a : A) :
  follows w plan m -> m w = Done a v ->
  exists evs, w_trace v = w_trace w ++ evs /\ actions evs = plan.
Proof.
  intros (evs & Htrace & _ & Hall) Hrun. rewrite Hrun in Htrace, Hall.
  exists evs. split; [done | by apply Hall].
Qed.

(** Without HOME, the font step throws as soon as it has logged its start. *)
Lemma install_font_home_unset {B} (k : unit -> Prog B) (w : World) :
  HOME = None ->
  exists e, (install_font ≫= k) w
            = Thrown e (logged INFO (lit "Installing JetBrains Mono Nerd Font...") w).
Proof.
  intros Hhome. unfold install_font, join_home.
  rewrite Hhome, bind_run, bind_run, log_run, bind_run. cbn. eauto.
Qed.

Lemma install_nvchad_value (home nvimDir : Path) (w w' : World) :
  HOME = Some home ->
  install_nvchad w = Done nvimDir w' ->
  nvimDir = path_join home [lit ".config"; lit "nvim"].
Proof.
  intros Hhome Hrun. unfold install_nvchad, join_home in Hrun. rewrite Hhome in Hrun.
  apply bind_Done in Hrun as (? & ? & _ & Hrun).
  apply bind_Done in Hrun as (dir & ? & Hdir & Hrun). injection Hdir as <- <-.
  repeat (apply bind_Done in Hrun as (? & ? & _ & Hrun)).
  by injection Hrun as <- _.
Qed.

Lemma main_returned_needs_home (w : World) :
  returned (main w) = true -> exists home, HOME = Some home.
Proof.
  intros Hret. apply returned_Done in Hret.
  unfold main, provision in Hret.
  apply bind_Done in Hret as ([] & w1 & _ & Hret).
  apply bind_Done in Hret as ([] & w2 & _ & Hret).
  destruct HOME as [home|] eqn:Hhome; [eauto |].
  destruct (install_font_home_unset
              (fun _ => nvimDir ← install_nvchad; configure_nvchad nvimDir;;
                        install_lsps;; log (lit "Setup completed successfully!");;
                        emit EvLogEnd) w2 Hhome) as [e He].
  congruence.
Qed.

(** X8: when the script runs to its end, HOME was set, every stage
    returned in the world the stage before it left, and the commands and
    calls on the file system of the run were, in this order and with
    nothing in between: the three version probes; the editor's probe, and
    the package-manager install exactly if that probe failed on the machine
    as the gate left it; the font step's look, [mkdir] exactly if
    [existsSync] did not find the font directory when that step began, and
    download, extraction, deletion of the archive and cache refresh; the
    distribution step's look, delete exactly if [existsSync] found the
    configuration root when that step began, and clone; the configuration
    step's look, [mkdir] exactly if [existsSync] did not find lua/custom in
    what the clone left, and three copies; the two language-server
    installs. *)
Theorem main_runs_the_stages_in_order (w : World) :
  returned (main w) = true ->
  exists home w1 w2 w3 w4 w5,
    let fontDir := path_join home [lit ".local"; lit "share"; lit "fonts"] in
    let nvimDir := path_join home [lit ".config"; lit "nvim"] in
    let customDir := path_join nvimDir [lit "lua"; lit "custom"] in
    HOME = Some home
    /\ check_prerequisites w = Done tt w1
    /\ install_neovim w1 = Done tt w2
    /\ install_font w2 = Done tt w3
    /\ install_nvchad w3 = Done nvimDir w4
    /\ configure_nvchad nvimDir w4 = Done tt w5
    /\ returned (install_lsps w5) = true
    /\ actions (since w (final_world (main w)))
       = gate_plan prerequisites
         ++ neovim_plan (succeeds (lit "nvim --version") w1)
         ++ font_plan home (found fontDir w2)
         ++ nvchad_plan home (found nvimDir w3)
         ++ configure_plan nvimDir (found customDir w4)
         ++ lsps_plan.
Proof.
  intros Hret. apply returned_Done in Hret.
  set (w' := final_world (main w)) in *. clearbody w'.
  unfold main, provision in Hret.
  apply bind_Done in Hret as ([] & w1 & Hgate & Hret).
  apply bind_Done in Hret as ([] & w2 & Hneovim & Hret).
  apply bind_Done in Hret as ([] & w3 & Hfont & Hret).
  apply bind_Done in Hret as (nvimDir & w4 & Hnvchad & Hret).
  apply bind_Done in Hret as ([] & w5 & Hconfigure & Hret).
  apply bind_Done in Hret as ([] & w6 & Hlsps & Hret).
  rewrite bind_run, log_run in Hret. injection Hret as <-.
  destruct HOME as [home|] eqn:Hhome.
  2:{ destruct (install_font_home_unset (fun _ => mret tt) w2 Hhome) as [e He].
      rewrite bind_run, Hfont in He. done. }
  pose proof (install_nvchad_value home _ _ _ Hhome Hnvchad) as Hdir. subst nvimDir.
  exists home, w1, w2, w3, w4, w5. cbn zeta.
  split; [reflexivity |]. split; [exact Hgate |]. split; [exact Hneovim |].
  split; [exact Hfont |]. split; [exact Hnvchad |]. split; [exact Hconfigure |].
  split; [by rewrite Hlsps |].
  unfold check_prerequisites in Hgate.
  apply (follows_Done _ _ _ _ _ (follows_forEach _ _)) in Hgate as (evs1 & T1 & A1).
  apply (follows_Done _ _ _ _ _ (follows_install_neovim _)) in Hneovim as (evs2 & T2 & A2).
  apply (follows_Done _ _ _ _ _ (follows_install_font home _ Hhome)) in Hfont
    as (evs3 & T3 & A3).
  apply (follows_Done _ _ _ _ _ (follows_install_nvchad home _ Hhome)) in Hnvchad
    as (evs4 & T4 & A4).
  apply (follows_Done _ _ _ _ _ (follows_configure_nvchad _ _)) in Hconfigure
    as (evs5 & T5 & A5).
  apply (follows_Done _ _ _ _ _ (follows_install_lsps _)) in Hlsps as (evs6 & T6 & A6).
  erewrite since_app.
  2:{ cbn [record logged w_trace]. rewrite T6, T5, T4, T3, T2, T1, <- !app_assoc.
      reflexivity. }
  rewrite !actions_app, A1, A2, A3, A4, A5, A6. cbn. by rewrite app_nil_r.
Qed.

(** X9: with HOME not set the script cannot run to its end, and it never
    calls [fs]: it does the version probes and the editor step, and the
    font step throws on [path.join] before any download. Nothing is
    created, deleted or copied. *)
Theorem home_unset_stops_before_the_fonts (w : World) :
  HOME = None ->
  returned (main w) = false
  /\ fs_calls (since w (final_world (main w))) = []
  /\ exists installed,
       actions (since w (final_world (main w)))
       `prefix_of` gate_plan prerequisites ++ neovim_plan installed.
Proof.
  intros Hhome.
  assert (Hnot : returned (main w) = false).
  { destruct (returned (main w)) eqn:Hret; [| done].
    apply main_returned_needs_home in Hret as [home Hret]. congruence. }
  split; [exact Hnot |].
  assert (Hplan : exists installed,
            follows w (gate_plan prerequisites ++ neovim_plan installed) main).
  { unfold main, check_prerequisites, provision.
    destruct (forEach prerequisites check_prerequisite w) as [[] w1| |] eqn:Hgate.
    - eexists.
      eapply (follows_bind _ (gate_plan prerequisites));
        [apply follows_forEach | intros [] v Hv | reflexivity].
      rewrite Hgate in Hv. injection Hv as <-.
      eapply (follows_bind _ _ []);
        [apply follows_install_neovim | intros [] v _ | by rewrite app_nil_r].
      destruct (install_font_home_unset
                  (fun _ => nvimDir ← install_nvchad; configure_nvchad nvimDir;;
                            install_lsps;; log (lit "Setup completed successfully!");;
                            emit EvLogEnd) v Hhome) as [e He].
      unfold follows. rewrite He. eexists. split; [reflexivity | done].
    - exists true. destruct (follows_forEach prerequisites w) as (evs & T & Pre & _).
      unfold follows. rewrite bind_run, Hgate in *.
      exists evs. split; [done |]. split; [by apply prefix_app_r | done].
    - exists true. destruct (follows_forEach prerequisites w) as (evs & T & Pre & _).
      unfold follows. rewrite bind_run, Hgate in *.
      exists evs. split; [done |]. split; [by apply prefix_app_r | done]. }
  destruct Hplan as [installed Hplan].
  apply follows_since in Hplan as [Hpre _].
  split; [| by exists installed].
  rewrite <- fs_calls_actions. destruct Hpre as [rest Hrest].
  assert (Hfs : fs_calls (actions (since w (final_world (main w))) ++ rest) = []).
  { rewrite <- Hrest. unfold fs_calls. rewrite omap_app. by destruct installed. }
  unfold fs_calls in *. rewrite omap_app in Hfs.
  by apply app_eq_nil in Hfs as [Hnone _].
Qed.

(** ** More on the distribution and configuration steps *)

Lemma rm_rf_Some (fs fs' : FS) (p : list str) :
  rm_rf fs p = Some fs' ->
  (forall q, p `prefix_of` q -> fs' !! q = None)
  /\ (forall q, ~ p `prefix_of` q -> fs' !! q = fs !! q).
Proof.
  unfold rm_rf. destruct (node_at fs p) as [[|content]|]; [| done | done].
  intros [= <-]. split; intros q Hq.
  - apply map_lookup_filter_None. right. intros node _ Hkeep. by apply Hkeep.
  - destruct (fs !! q) as [node|] eqn:Hnode.
    + by apply map_lookup_filter_Some.
    + apply map_lookup_filter_None. by left.
Qed.

Lemma node_at_snoc (fs : FS) (p : list str) (s : str) :
  node_at fs (p ++ [s]) = fs !! (p ++ [s]).
Proof. by destruct p. Qed.

(** X10: unless the look-up of the configuration root fails, the clone
    never goes into an existing root. With HOME set, either [existsSync]
    found the root and the delete threw, and then no command is run; or the
    rest of the distribution step (the clone and its log lines) starts from
    a tree in which every path outside the root is as it was. In that tree,
    if [existsSync] found the root, the root and everything below it are
    gone; if it did not, nothing was deleted. So whenever the look-up went
    through, the root is absent when the clone starts; only a failed
    look-up, answered no, lets the clone start with the root still there. *)
Theorem clone_finds_the_root_cleared (home : Path) (w : World) :
  HOME = Some home ->
  let nvimDir := path_join home [lit ".config"; lit "nvim"] in
  let root := resolve nvimDir in
  (found nvimDir w = true
   /\ thrown (install_nvchad w) = true
   /\ commands (since w (final_world (install_nvchad w))) = [])
  \/ exists u,
       install_nvchad w = clone_and_finish nvimDir u
       /\ (forall q, ~ root `prefix_of` q -> w_fs u !! q = w_fs w !! q)
       /\ w_ext u = w_ext w
       /\ (if found nvimDir w
           then forall q, root `prefix_of` q -> w_fs u !! q = None
           else w_fs u = w_fs w)
       /\ (fs_refuses (ExistsSync nvimDir) (w_ext w) (w_fs w) = None ->
           node_at (w_fs u) root = None).
Proof.
  intros Hhome nvimDir root.
  assert (Hroot : forall fs : FS, node_at fs root = fs !! root).
  { intros fs. subst root nvimDir. rewrite resolve_join.
    replace [lit ".config"; lit "nvim"] with ([lit ".config"] ++ [lit "nvim"]) by done.
    rewrite app_assoc. apply node_at_snoc. }
  unfold install_nvchad, join_home.
  rewrite bind_run, log_run, Hhome, bind_run. cbn [mret prog_ret].
  fold nvimDir. rewrite bind_run, existsSync_run, found_logged.
  set (looked := record _ _).
  destruct (found nvimDir w) eqn:Hanswer.
  - rewrite bind_run, bind_run, log_run, bind_run.
    set (u0 := logged INFO _ looked).
    destruct (fs_call_cases (RmdirSync nvimDir) (lit "ENOTDIR")
                (fun fs => rm_rf fs (resolve nvimDir)) u0) as [(fs' & Hrm & E) | (code & E)];
      fold (rmdirSync nvimDir) in E; rewrite E.
    + right. rewrite log_run. eexists. split; [reflexivity |].
      cbn [logged with_fs record w_fs w_ext].
      apply rm_rf_Some in Hrm as [Hgone Hkept]. fold root in Hgone, Hkept.
      split; [exact Hkept |]. split; [done |]. split; [exact Hgone |].
      intros _. rewrite Hroot. by apply Hgone.
    + left. split; [done |]. split; [done |].
      cbn [final_world]. subst u0 looked. by read_since.
  - right. rewrite bind_run. cbn [mret prog_ret]. exists looked.
    split; [reflexivity |]. subst looked. cbn [record logged w_fs w_ext].
    split; [done |]. split; [done |]. split; [done |].
    intros Hlooked. rewrite (found_looked_up _ _ Hlooked) in Hanswer.
    apply bool_decide_eq_false in Hanswer.
    destruct (node_at (w_fs w) root) eqn:Hnode; [| done].
    exfalso. apply Hanswer. fold root. rewrite Hnode. eauto.
Qed.

Lemma node_at_insert_ne (fs : FS) (d q : list str) (node : Node) :
  q <> d -> node_at (<[d := node]> fs) q = node_at fs q.
Proof. intros Hne. destruct q; [done |]. cbn. by rewrite lookup_insert_ne. Qed.

Lemma node_at_insert_snoc (fs : FS) (p : list str) (s : str) (node : Node) :
  node_at (<[p ++ [s] := node]> fs) (p ++ [s]) = Some node.
Proof. rewrite node_at_snoc. apply lookup_insert_eq. Qed.

Lemma node_at_insert_eq (fs : FS) (d : list str) (node : Node) :
  d <> [] -> node_at (<[d := node]> fs) d = Some node.
Proof. intros Hne. destruct d; [done |]. apply lookup_insert_eq. Qed.

Lemma parent_join (p : Path) (more : list str) (s : str) :
  parent (resolve (path_join p (more ++ [s]))) = resolve (path_join p more).
Proof. by rewrite !resolve_join, app_assoc, parent_snoc. Qed.

(** [mkdir -p] neither makes nor changes a file. *)
Lemma mkdir_p_keeps_files (below : list str) (fs fs' : FS) (above q : list str)
    (content : str) :
  mkdir_p fs above below = Some fs' ->
  node_at fs' q = Some (File content) -> node_at fs q = Some (File content).
Proof.
  revert fs above. induction below as [|s below IH]; intros fs above Hmk Hfile.
  - cbn in Hmk. congruence.
  - cbn in Hmk.
    destruct (node_at fs (above ++ [s])) as [[|c]|] eqn:Hnode; [eauto | done |].
    apply (IH _ _ Hmk) in Hfile.
    destruct (decide (q = above ++ [s])) as [->|Hne].
    + rewrite node_at_insert_snoc in Hfile. done.
    + by rewrite node_at_insert_ne in Hfile.
Qed.

(** A copy that returned read a file, found the destination's directory and
    wrote the content there. *)
Lemma copy_config_Done (file : ConfigFile) (v v' : World) :
  copy_config file v = Done tt v' ->
  exists content,
    node_at (w_fs v) (resolve (src file)) = Some (File content)
    /\ is_dir (w_fs v) (parent (resolve (dest file))) = true
    /\ w_fs v' = <[resolve (dest file) := File content]> (w_fs v).
Proof.
  unfold copy_config, copyFileSync, fs_call. rewrite bind_run.
  destruct (fs_refuses _ _ _); [done |].
  destruct (copy_file _ _ _) as [fs'|] eqn:Hcopy; [| done].
  rewrite log_run. intros [= <-]. cbn [logged with_fs record w_fs].
  unfold copy_file in Hcopy.
  destruct (node_at (w_fs v) (resolve (src file))) as [[|content]|]; [done | | done].
  destruct (is_dir (w_fs v) (parent (resolve (dest file)))); [| done].
  destruct (negb _); [| done]. injection Hcopy as <-. eauto.
Qed.

(** Two paths that end in different names are different. *)
Ltac by_last_name :=
  let Heq := fresh "Heq" in
  intros Heq; apply (f_equal last) in Heq;
  rewrite ?resolve_join, ?last_app in Heq; cbn [last dest src] in Heq;
  first [ discriminate Heq | injection Heq as Heq; vm_compute in Heq; discriminate ].

(** X11: when the configuration step returns, the three configuration
    files are in place: each destination holds the content its source had
    when the step began, and lua/custom and lua/plugins/configs are
    directories of the tree. *)
Theorem configure_places_the_three_files (nvimDir : Path) (w : World) :
  returned (configure_nvchad nvimDir w) = true ->
  let tree := w_fs (final_world (configure_nvchad nvimDir w)) in
  is_dir tree (resolve (path_join nvimDir [lit "lua"; lit "custom"])) = true
  /\ is_dir tree (resolve (path_join nvimDir [lit "lua"; lit "plugins"; lit "configs"])) = true
  /\ forall file, file ∈ configFiles nvimDir ->
       exists content,
         node_at (w_fs w) (resolve (src file)) = Some (File content)
         /\ node_at tree (resolve (dest file)) = Some (File content).
Proof.
  intros Hret tree. apply returned_Done in Hret. subst tree.
  set (w' := final_world _) in *. clearbody w'.
  unfold configure_nvchad in Hret. cbn zeta in Hret.
  set (customDir := path_join nvimDir [lit "lua"; lit "custom"]) in *.
  apply bind_Done in Hret as ([] & w0 & Hlog & Hret).
  rewrite log_run in Hlog. injection Hlog as <-.
  apply bind_Done in Hret as (present & u0 & Hlook & Hret).
  rewrite existsSync_run in Hlook. injection Hlook as _ <-.
  apply bind_Done in Hret as ([] & u1 & Hensure & Hret).
  apply bind_Done in Hret as ([] & u4 & Hcopies & Hret).
  rewrite log_run in Hret. injection Hret as <-. cbn [logged w_fs].
  (* nothing the step did before the copies made or changed a file *)
  assert (Hfiles : forall q content,
            node_at (w_fs u1) q = Some (File content) ->
            node_at (w_fs w) q = Some (File content)).
  { intros q content. destruct (negb present).
    - unfold mkdirSync, fs_call in Hensure.
      destruct (fs_refuses _ _ _); [done |].
      destruct (mkdir_p _ _ _) as [fs'|] eqn:Hmk; [| done].
      injection Hensure as <-. cbn [with_fs record logged w_fs] in *.
      by apply (mkdir_p_keeps_files _ _ _ _ _ _ Hmk).
    - by injection Hensure as <-. }
  unfold configFiles in Hcopies. cbn [forEach] in Hcopies.
  apply bind_Done in Hcopies as ([] & u2 & Hfirst & Hcopies).
  apply bind_Done in Hcopies as ([] & u3 & Hsecond & Hcopies).
  apply bind_Done in Hcopies as ([] & u & Hthird & Hcopies).
  injection Hcopies as <-.
  apply copy_config_Done in Hfirst as (c1 & Hsrc1 & Hdir1 & Hfs2).
  apply copy_config_Done in Hsecond as (c2 & Hsrc2 & Hdir2 & Hfs3).
  apply copy_config_Done in Hthird as (c3 & Hsrc3 & Hdir3 & Hfs4).
  cbn [src dest] in *.
  rewrite Hfs2 in Hsrc2, Hfs3. rewrite Hfs3 in Hsrc3, Hdir3, Hfs4.
  rewrite Hfs4. clear Hfs2 Hfs3 Hfs4 Hdir2.
  pose proof (parent_join nvimDir [lit "lua"; lit "custom"] (lit "chadrc.lua")) as Hp1.
  pose proof (parent_join nvimDir [lit "lua"; lit "plugins"; lit "configs"]
                (lit "lspconfig.lua")) as Hp3.
  cbn [app] in Hp1, Hp3. rewrite Hp1 in Hdir1. rewrite Hp3 in Hdir3. clear Hp1 Hp3.
  unfold is_dir in *.
  split; [| split].
  - unfold customDir. by repeat (rewrite node_at_insert_ne by by_last_name).
  - repeat (rewrite node_at_insert_ne in Hdir3 by by_last_name).
    by repeat (rewrite node_at_insert_ne by by_last_name).
  - intros file Hfile. unfold configFiles in Hfile. rewrite !elem_of_cons in Hfile.
    destruct Hfile as [-> | [-> | [-> | Hfile]]]; [| | | by apply elem_of_nil in Hfile];
      cbn [src dest].
    + exists c1. split; [by apply Hfiles |].
      repeat (rewrite node_at_insert_ne by by_last_name).
      apply node_at_insert_eq. by_last_name.
    + exists c2. split.
      * apply Hfiles. by repeat (rewrite node_at_insert_ne in Hsrc2 by by_last_name).
      * repeat (rewrite node_at_insert_ne by by_last_name).
        apply node_at_insert_eq. by_last_name.
    + exists c3. split.
      * apply Hfiles. by repeat (rewrite node_at_insert_ne in Hsrc3 by by_last_name).
      * apply node_at_insert_eq. by_last_name.
Qed.

(** ** The log file *)

Lemma entries_app (sev : Severity) (a b : list Event) :
  entries sev (a ++ b) = entries sev a ++ entries sev b.
Proof. apply omap_app. Qed.

Lemma errors_exit_ret {A} (a : A) : errors_exit (mret a).
Proof. intros w. exists []. cbn. by rewrite app_nil_r. Qed.

Lemma errors_exit_throw {A} (e : JsError) : errors_exit (throw (A := A) e).
Proof. intros w. exists []. cbn. by rewrite app_nil_r. Qed.

Lemma errors_exit_bind {A B} (m : Prog A) (k : A -> Prog B) :
  errors_exit m -> (forall a, errors_exit (k a)) -> errors_exit (m ≫= k).
Proof.
  intros Hm Hk w. rewrite bind_run.
  destruct (Hm w) as (evs & Htrace & Hevs).
  destruct (m w) as [a v|code v|e v]; cbn in *; [| eauto | eauto].
  destruct (Hk a v) as (evs' & Htrace' & Hevs').
  exists (evs ++ evs'). split; [by rewrite Htrace', Htrace, app_assoc |].
  intros Hcode. by rewrite entries_app, Hevs, Hevs'.
Qed.

Lemma errors_exit_try_catch {A} (body : Prog A) (handler : JsError -> Prog A) :
  errors_exit body -> (forall e, errors_exit (handler e)) ->
  errors_exit (try_catch body handler).
Proof.
  intros Hbody Hhandler w. unfold try_catch.
  destruct (Hbody w) as (evs & Htrace & Hevs).
  destruct (body w) as [a v|code v|e v]; cbn in *; [eauto | eauto |].
  destruct (Hhandler e v) as (evs' & Htrace' & Hevs').
  exists (evs ++ evs'). split; [by rewrite Htrace', Htrace, app_assoc |].
  intros Hcode. by rewrite entries_app, Hevs, Hevs'.
Qed.

Lemma errors_exit_forEach {A} (l : list A) (f : A -> Prog unit) :
  (forall x, errors_exit (f x)) -> errors_exit (forEach l f).
Proof.
  intros Hf. induction l as [|x l IH]; cbn [forEach].
  - apply errors_exit_ret.
  - apply errors_exit_bind; [apply Hf | intros _; apply IH].
Qed.

Lemma errors_exit_log (message : str) : errors_exit (log message).
Proof. intros w. rewrite log_run. eexists. split; [reflexivity | done]. Qed.

Lemma errors_exit_execSync (cmd : str) (stdio : Stdio) : errors_exit (execSync cmd stdio).
Proof.
  intros w. rewrite execSync_run.
  destruct (shell cmd (w_ext w) (w_fs w)) as [[[out|detail] ext'] fs'];
    (eexists; split; [reflexivity | done]).
Qed.

Lemma errors_exit_existsSync (p : Path) : errors_exit (existsSync p).
Proof. intros w. eexists. split; [reflexivity | done]. Qed.

Lemma errors_exit_fs_call (call : FsCall) (errno : str) (op : FS -> option FS) :
  errors_exit (fs_call call errno op).
Proof.
  intros w.
  destruct (fs_call_cases call errno op w) as [(fs' & _ & ->) | (code & ->)];
    (eexists; split; [reflexivity | done]).
Qed.

Lemma errors_exit_join_home (more : list str) : errors_exit (join_home more).
Proof.
  unfold join_home. destruct HOME; [apply errors_exit_ret | apply errors_exit_throw].
Qed.

(** The two places that log an error: the check and the command runner.
    Both call [process.exit(1)] right after. *)
Lemma errors_exit_check_prerequisite (prereq : Prerequisite) :
  errors_exit (check_prerequisite prereq).
Proof.
  intros w. rewrite check_prerequisite_run.
  destruct (shell (command prereq) (w_ext w) (w_fs w)) as [[[out|detail] ext'] fs'];
    [cbn zeta; destruct (js_lt _ _) |];
    (eexists; split; [cbn; rewrite <- ?app_assoc; reflexivity | done]).
Qed.

Lemma errors_exit_runCommand (cmd : str) : errors_exit (runCommand cmd).
Proof.
  intros w. rewrite runCommand_run.
  destruct (shell cmd (w_ext w) (w_fs w)) as [[[out|detail] ext'] fs'];
    (eexists; split; [cbn; rewrite <- ?app_assoc; reflexivity | done]).
Qed.

Ltac errors_exit_step :=
  lazymatch goal with
  | |- errors_exit (runCommand _) => apply errors_exit_runCommand
  | |- errors_exit (check_prerequisite _) => apply errors_exit_check_prerequisite
  | |- errors_exit (_ ≫= _) => apply errors_exit_bind; [| intros ?]
  | |- errors_exit (try_catch _ _) => apply errors_exit_try_catch; [| intros ?]
  | |- errors_exit (forEach _ _) => apply errors_exit_forEach; intros ?
  | |- errors_exit (if ?b then _ else _) => destruct b
  | |- errors_exit (log _) => apply errors_exit_log
  | |- errors_exit (execSync _ _) => apply errors_exit_execSync
  | |- errors_exit (existsSync _) => apply errors_exit_existsSync
  | |- errors_exit (fs_call _ _ _) => apply errors_exit_fs_call
  | |- errors_exit (join_home _) => apply errors_exit_join_home
  | |- errors_exit (mret _) => apply errors_exit_ret
  end.

Lemma errors_exit_main : errors_exit main.
Proof.
  unfold main, provision, check_prerequisites.
  apply errors_exit_bind; [repeat errors_exit_step | intros _].
  apply errors_exit_bind; [unfold install_neovim; repeat errors_exit_step | intros _].
  apply errors_exit_bind;
    [unfold install_font, mkdirSync, unlinkSync; repeat errors_exit_step | intros _].
  apply errors_exit_bind;
    [unfold install_nvchad, rmdirSync; repeat errors_exit_step | intros nvimDir].
  apply errors_exit_bind;
    [unfold configure_nvchad, copy_config, mkdirSync, copyFileSync;
     repeat errors_exit_step | intros _].
  apply errors_exit_bind; [unfold install_lsps; repeat errors_exit_step | intros _].
  apply errors_exit_bind; [apply errors_exit_log | intros _].
  intros w. eexists. split; [reflexivity | done].
Qed.

(** Without ERROR entries, what was written to the stream is the INFO
    entries. *)
Lemma written_info (evs : list Event) :
  entries ERROR evs = [] -> written evs = entries INFO evs.
Proof.
  induction evs as [|e evs IH]; [done |].
  destruct e as [| [|] chunk | | |]; cbn; try exact IH.
  - intros Hnone. f_equal. by apply IH.
  - done.
Qed.

Lemma file_text_insert (fs : FS) (p : list str) (content : str) :
  p <> [] -> file_text (<[p := File content]> fs) p = content.
Proof. intros Hp. unfold file_text. by rewrite node_at_insert_eq. Qed.

Lemma append_file_Some (fs fs' : FS) (p : list str) (data : str) :
  p <> [] ->
  append_file fs p data = Some fs' ->
  file_text fs' p = file_text fs p ++ data
  /\ forall q, q <> p -> fs' !! q = fs !! q.
Proof.
  intros Hp. unfold append_file, file_text at 2.
  destruct (node_at fs p) as [[|content]|]; [done | |].
  - intros [= <-]. split; [by apply file_text_insert |].
    intros q Hq. by rewrite lookup_insert_ne.
  - destruct (is_dir fs (parent p)); [| done].
    intros [= <-]. split; [by apply file_text_insert |].
    intros q Hq. by rewrite lookup_insert_ne.
Qed.

(** X12: what becomes of the log file. The lines of a run reach
    'debug.log' only when the script runs to its end: then the stream,
    opened for appending, puts the text of every line written during the
    run after what the file held, in the order they were written, and
    changes nothing else on the disk; all of these lines are INFO entries.
    When the process ends in [process.exit] or in an exception, the disk is
    left as the script left it: nothing of the run is in the file. An ERROR
    entry only occurs in a run that ends in [process.exit], so no ERROR
    entry of the script ever reaches the file. Whatever happens, the earlier
    text of the file stays at its beginning and no other path changes when
    the process ends; a run that returns completes when the open is not
    refused, the working directory is there and no directory has the file's
    name; and the exit status of the process is 0 or 1. *)
Theorem log_file_written_only_on_completion (w : World) :
  let r := main w in
  let w' := final_world r in
  let file := resolve logFile in
  let lines := written (since w w') in
  (ending (run w) = Completed ->
     returned r = true
     /\ file_text (disk (run w)) file = file_text (w_fs w') file ++ concat lines
     /\ lines = entries INFO (since w w'))
  /\ (ending (run w) <> Completed -> disk (run w) = w_fs w')
  /\ (returned r = false -> ending (run w) <> Completed)
  /\ (entries ERROR (since w w') <> [] -> exists w'', r = Exited 1 w'')
  /\ (forall q, q <> file -> disk (run w) !! q = w_fs w' !! q)
  /\ (exists added, file_text (disk (run w)) file = file_text (w_fs w') file ++ added)
  /\ (returned r = true ->
      fs_refuses (OpenAppend logFile) (w_ext w') (w_fs w') = None ->
      is_dir (w_fs w') (parent file) = true ->
      is_dir (w_fs w') file = false ->
      ending (run w) = Completed)
  /\ (exit_status (ending (run w)) = 0%Z \/ exit_status (ending (run w)) = 1%Z).
Proof.
  intros r w' file lines.
  assert (Hfile : file <> []).
  { subst file. unfold resolve, logFile, relative. cbn. by destruct cwd. }
  destruct (errors_exit_main w) as (evs & Htrace & Hclean). fold r in Htrace, Hclean.
  assert (Hsince : since w w' = evs) by (by apply since_app).
  assert (Hcode : forall code, exit_code r = Some code -> code = 1%Z).
  { apply (adds_main (fun _ => True)); done. }
  assert (Herrors : entries ERROR (since w w') <> [] -> exists w'', r = Exited 1 w'').
  { intros Hsome. destruct r as [a v|code v|e v] eqn:Hr.
    - exfalso. apply Hsome. rewrite Hsince. by apply Hclean.
    - rewrite (Hcode code eq_refl). eauto.
    - exfalso. apply Hsome. rewrite Hsince. by apply Hclean. }
  unfold run. fold r. subst lines w'.
  destruct r as [[] v|code v|e v] eqn:Hr; cbn [final_world returned] in *.
  - destruct (fs_refuses (OpenAppend logFile) (w_ext v) (w_fs v)) as [refused|] eqn:Hopen.
    { cbn [ending disk exit_status].
      split; [done |]. split; [done |]. split; [done |]. split; [done |].
      split; [done |]. split; [exists []; by rewrite app_nil_r |].
      split; [done | by right]. }
    fold file.
    destruct (append_file (w_fs v) file (concat (written (since w v)))) as [fs'|] eqn:Happend.
    + destruct (append_file_Some _ _ _ _ Hfile Happend) as [Htext Hrest].
      cbn [ending disk exit_status].
      split. { intros _. split; [done |]. split; [exact Htext |].
               apply written_info. rewrite Hsince. by apply Hclean. }
      split; [done |]. split; [done |]. split; [exact Herrors |].
      split; [exact Hrest |]. split; [eauto |]. split; [done | by left].
    + cbn [ending disk exit_status].
      split; [done |]. split; [done |]. split; [done |]. split; [exact Herrors |].
      split; [done |]. split; [exists []; by rewrite app_nil_r |].
      split; [| by right].
      intros _ _ Hdir Hnot. exfalso. revert Happend. unfold append_file.
      unfold is_dir in Hnot.
      destruct (node_at (w_fs v) file) as [[|content]|]; [done | done |].
      by rewrite Hdir.
  - cbn [ending disk exit_status].
    split; [done |]. split; [done |]. split; [done |]. split; [exact Herrors |].
    split; [done |]. split; [exists []; by rewrite app_nil_r |].
    split; [done |]. right. by apply Hcode.
  - cbn [ending disk exit_status].
    split; [done |]. split; [done |]. split; [done |]. split; [exact Herrors |].
    split; [done |]. split; [exists []; by rewrite app_nil_r |].
    split; [done | by right].
Qed.

End Properties.

(** ** The example hosts at work *)

(** On a machine with Node.js 18 the first check passes: '18.17.0' is not
    below '14.0.0'. *)
Lemma gate_compares_lexicographically_witness :
  exists w',
    check_prerequisite (H := scripted ready []) node_js (boot ready [] ∅) = Done tt w'.
Proof.
  assert (Hshell : shell (Host := scripted ready []) (command node_js)
                     (w_ext (boot ready [] ∅)) (w_fs (boot ready [] ∅))
                   = (ExecOk (lit "v18.17.0" ++ nl), tt, ∅))
    by (vm_compute; reflexivity).
  destruct (gate_compares_lexicographically (H := scripted ready []) node_js
              (boot ready [] ∅) (lit "v18.17.0" ++ nl) tt ∅ Hshell)
    as [[_ Hpass] _].
  apply Hpass. apply js_lt_false_lex_ge. vm_compute. reflexivity.
Defined.

(** '9.0.0' is not below '10.0.0' as a string: a machine with Node.js 9
    passes a check that asks for Node.js 10. *)
Lemma nine_not_below_ten :
  js_lt (lit "9.0.0") (lit "10.0.0") = false
  /\ ~ lex_lt (lit "9.0.0") (lit "10.0.0")
  /\ returned (check_prerequisite (H := scripted (probes (lit "9.0.0")) []) node_10
                 (boot (probes (lit "9.0.0")) [] ∅)) = true.
Proof.
  split; [vm_compute; reflexivity |]. split.
  - apply js_lt_false_lex_ge. vm_compute. reflexivity.
  - vm_compute. reflexivity.
Qed.

(** Without a package manager, installing NeoVim fails and leaves two
    errors in the log. *)
Lemma runCommand_failure_entries_witness :
  exists w' line1 line2,
    runCommand (H := scripted bare []) (lit "sudo apt-get install neovim")
      (boot bare [] ∅) = Exited 1 w'
    /\ entries ERROR (since (boot bare [] ∅) w') = [line1; line2].
Proof.
  assert (Hshell : shell (Host := scripted bare []) (lit "sudo apt-get install neovim")
                     (w_ext (boot bare [] ∅)) (w_fs (boot bare [] ∅))
                   = (ExecFailed (lit "Command failed: sudo apt-get install neovim"), tt, ∅))
    by (vm_compute; reflexivity).
  destruct (runCommand_failure_entries (H := scripted bare [])
              (lit "sudo apt-get install neovim")
              (lit "Command failed: sudo apt-get install neovim")
              (boot bare [] ∅) tt ∅ Hshell)
    as (w' & line1 & line2 & Hrun & Hentries & _).
  exists w', line1, line2. by split.
Defined.

Lemma failed_command_logs_two_errors :
  exit_code (runCommand (H := scripted bare []) (lit "sudo apt-get install neovim")
               (boot bare [] ∅)) = Some 1%Z
  /\ entries ERROR
       (since (boot bare [] ∅)
          (final_world (runCommand (H := scripted bare [])
                          (lit "sudo apt-get install neovim") (boot bare [] ∅))))
     = [ lit "[2024-05-01T10:00:00.000Z] ERROR: Error executing command: sudo apt-get install neovim" ++ nl;
         lit "[2024-05-01T10:00:00.000Z] ERROR: Command failed: sudo apt-get install neovim" ++ nl ]
  /\ length (entries ERROR
       (since (boot bare [] ∅)
          (final_world (runCommand (H := scripted bare [])
                          (lit "sudo apt-get install neovim") (boot bare [] ∅))))) = 2
  /\ ~ exists line,
       entries ERROR
         (since (boot bare [] ∅)
            (final_world (runCommand (H := scripted bare [])
                            (lit "sudo apt-get install neovim") (boot bare [] ∅))))
       = [line].
Proof.
  assert (Hlen : length (entries ERROR
       (since (boot bare [] ∅)
          (final_world (runCommand (H := scripted bare [])
                          (lit "sudo apt-get install neovim") (boot bare [] ∅))))) = 2)
    by (vm_compute; reflexivity).
  split; [vm_compute; reflexivity |]. split; [vm_compute; reflexivity |].
  split; [exact Hlen |].
  intros [line Hline]. rewrite Hline in Hlen. discriminate.
Qed.

(** On a machine without Node.js the first check stops the run. *)
Lemma missing_tool_stops_the_run_witness :
  exists w',
    check_prerequisite (H := scripted [] []) node_js (boot [] [] ∅) = Exited 1 w'
    /\ main (H := scripted [] []) (boot [] [] ∅) = Exited 1 w'.
Proof.
  assert (Hshell : shell (Host := scripted [] []) (command node_js)
                     (w_ext (boot [] [] ∅)) (w_fs (boot [] [] ∅))
                   = (ExecFailed (lit "Command failed: node --version"), tt, ∅))
    by (vm_compute; reflexivity).
  destruct (missing_tool_stops_the_run (H := scripted [] []) node_js
              (boot [] [] ∅) (lit "Command failed: node --version") tt ∅ Hshell)
    as (Hcheck & _ & _ & _ & _ & Hmain).
  eexists. split; [exact Hcheck |].
  apply (Hmain [] (drop 1 prerequisites)); reflexivity.
Defined.

(** An earlier installation is deleted, then the clone runs. *)
Lemma install_nvchad_delete_then_clone_witness :
  actions (since (boot ready [] used_disk)
             (final_world (install_nvchad (H := scripted ready []) (boot ready [] used_disk))))
  = [EvFs (ExistsSync nvim_dev); EvFs (RmdirSync nvim_dev);
     EvExec (clone_command nvim_dev) Inherit].
Proof.
  assert (Hhome : HOME (Host := scripted ready []) = Some home_dev) by reflexivity.
  destruct (install_nvchad_delete_then_clone (H := scripted ready []) home_dev
              (boot ready [] used_disk) Hhome) as (_ & _ & _ & Hdone).
  vm_compute in Hdone. vm_compute. exact Hdone.
Defined.

(** When the system refuses the delete, the path exists, the delete was
    called once, and no clone follows. And when the path exists but cannot be
    looked up, [existsSync] answers no: there is no delete at all, and the
    clone runs. *)
Lemma refused_delete_stops_before_clone :
  (bool_decide (is_Some (node_at used_disk
                  (resolve (H := scripted ready [RmdirSync nvim_dev]) nvim_dev))) = true
   /\ fs_calls (since (boot ready [RmdirSync nvim_dev] used_disk)
        (final_world (install_nvchad (H := scripted ready [RmdirSync nvim_dev])
                        (boot ready [RmdirSync nvim_dev] used_disk))))
      = [ExistsSync nvim_dev; RmdirSync nvim_dev]
   /\ commands (since (boot ready [RmdirSync nvim_dev] used_disk)
        (final_world (install_nvchad (H := scripted ready [RmdirSync nvim_dev])
                        (boot ready [RmdirSync nvim_dev] used_disk))))
      = []
   /\ thrown (install_nvchad (H := scripted ready [RmdirSync nvim_dev])
                (boot ready [RmdirSync nvim_dev] used_disk)) = true)
  /\ (bool_decide (is_Some (node_at used_disk
                  (resolve (H := scripted ready [ExistsSync nvim_dev]) nvim_dev))) = true
      /\ actions (since (boot ready [ExistsSync nvim_dev] used_disk)
           (final_world (install_nvchad (H := scripted ready [ExistsSync nvim_dev])
                           (boot ready [ExistsSync nvim_dev] used_disk))))
         = [EvFs (ExistsSync nvim_dev); EvExec (clone_command nvim_dev) Inherit]
      /\ returned (install_nvchad (H := scripted ready [ExistsSync nvim_dev])
                     (boot ready [ExistsSync nvim_dev] used_disk)) = true).
Proof.
  split.
  - split; [vm_compute; reflexivity |]. split; [vm_compute; reflexivity |].
    split; vm_compute; reflexivity.
  - split; [vm_compute; reflexivity |]. split; vm_compute; reflexivity.
Qed.

(** With Node.js 12 the check fails, and the detected version is in the log
    all the same. *)
Lemma outdated_version_is_logged :
  exit_code (check_prerequisite (H := scripted outdated []) node_js
               (boot outdated [] ∅)) = Some 1%Z
  /\ entries INFO
       (since (boot outdated [] ∅)
          (final_world (check_prerequisite (H := scripted outdated []) node_js
                          (boot outdated [] ∅))))
     = [lit "[2024-05-01T10:00:00.000Z] Node.js version: v12.22.9" ++ nl]
  /\ since (boot outdated [] ∅)
       (final_world (check_prerequisite (H := scripted outdated []) node_js
                       (boot outdated [] ∅))) !! 2
     = Some (EvConsole Stdout (lit "Node.js version: v12.22.9")).
Proof.
  split; [vm_compute; reflexivity |].
  split; vm_compute; reflexivity.
Qed.

(** On the machine that has everything, the script runs to its end: the
    three probes, the editor probe, the font, the clone, the configuration
    and the two language servers, in this order. *)
Example ready_machine_is_provisioned :
  returned (main (H := scripted ready []) (boot ready [] fresh_disk)) = true
  /\ commands (since (boot ready [] fresh_disk)
       (final_world (main (H := scripted ready []) (boot ready [] fresh_disk))))
     = [ lit "node --version"; lit "npm --version"; lit "git --version";
         lit "nvim --version";
         lit "curl -L -o JetBrainsMono.zip https://download.jetbrains.com/fonts/JetBrainsMono-2.242.zip";
         lit "unzip -q JetBrainsMono.zip -d /home/dev/.local/share/fonts";
         lit "fc-cache -f";
         lit "git clone -b v2.0 https://github.com/NvChad/NvChad /home/dev/.config/nvim --depth 1";
         lit "sudo npm install -g pyright";
         lit "sudo npm install -g typescript-language-server" ].
Proof. split; vm_compute; reflexivity. Qed.

(** When the clone has no lua/plugins/configs, the run ends in the exception
    of the third copy, and no language server is installed. *)
Example slim_clone_breaks_configuration :
  thrown (main (H := scripted slim_clone []) (boot slim_clone [] fresh_disk)) = true
  /\ last (fs_calls (since (boot slim_clone [] fresh_disk)
             (final_world (main (H := scripted slim_clone []) (boot slim_clone [] fresh_disk)))))
     = Some (CopyFileSync
               (path_join checkout [lit "configs"; lit "lspconfig.lua"])
               (path_join nvim_dev [lit "lua"; lit "plugins"; lit "configs"; lit "lspconfig.lua"]))
  /\ last (commands (since (boot slim_clone [] fresh_disk)
             (final_world (main (H := scripted slim_clone []) (boot slim_clone [] fresh_disk)))))
     = Some (clone_command nvim_dev).
Proof. split; [| split]; vm_compute; reflexivity. Qed.

(** A probe that prints [1.9.0] for Git, below the minimum [2.0.0]: the
    third check fails, the run ends with status 1 after the three probes,
    and nothing of provisioning has happened on a machine that could have
    run all of it. *)
Example low_git_version_stops_the_run :
  let w := boot bare_git_1_9 [] fresh_disk in
  let r := main (H := scripted bare_git_1_9 []) w in
  exit_code r = Some 1%Z
  /\ commands (since w (final_world r))
     = [lit "node --version"; lit "npm --version"; lit "git --version"]
  /\ fs_calls (since w (final_world r)) = []
  /\ entries ERROR (since w (final_world r))
     = [ lit "[2024-05-01T10:00:00.000Z] ERROR: Git version 2.0.0 or higher is required. Please update Git and run the script again." ++ nl ].
Proof.
  intros w r.
  split; [vm_compute; reflexivity |]. split; [vm_compute; reflexivity |].
  split; vm_compute; reflexivity.
Qed.

(** C9 (where the code departs from it): a machine without Git, started in
    a checkout that holds the log of an earlier run. [logError] makes the
    line of the claim, with the ISO-8601 timestamp and the [ERROR: ] prefix,
    hands it to the log stream and the bare message to standard error; but
    [process.exit(1)] is the next statement, and the process ends with the
    stream still holding the three lines of this run. 'debug.log' has the
    text it had before the run: the error line is not appended to the log
    file, and neither are the two version lines logged before it. *)
Theorem error_line_never_reaches_the_log_file :
  let w := boot no_git [] logged_disk in
  let r := main (H := scripted no_git []) w in
  let message := lit "Git is not installed. Please install it and run the script again." in
  exit_code r = Some 1%Z
  /\ written (since w (final_world r))
     = [ lit "[2024-05-01T10:00:00.000Z] Node.js version: v18.17.0" ++ nl;
         lit "[2024-05-01T10:00:00.000Z] npm version: 9.6.7" ++ nl;
         lit "[2024-05-01T10:00:00.000Z] ERROR: " ++ message ++ nl ]
  /\ entries ERROR (since w (final_world r))
     = [lit "[2024-05-01T10:00:00.000Z] ERROR: " ++ message ++ nl]
  /\ last (since w (final_world r)) = Some (EvConsole Stderr message)
  /\ ending (run (H := scripted no_git []) w) = ExitedWith 1
  /\ file_text logged_disk (resolve (H := scripted no_git []) logFile) = earlier_log
  /\ file_text (disk (run (H := scripted no_git []) w))
       (resolve (H := scripted no_git []) logFile) = earlier_log.
Proof.
  intros w r message.
  split; [vm_compute; reflexivity |]. split; [vm_compute; reflexivity |].
  split; [vm_compute; reflexivity |]. split; [vm_compute; reflexivity |].
  split; [vm_compute; reflexivity |]. split; vm_compute; reflexivity.
Qed.

(** On the machine that has everything the run completes, and the log file
    then holds the earlier log followed by every line of this run, the
    first and the last of which are shown. *)
Example completed_run_appends_its_log :
  let w := boot ready [] logged_disk in
  let out := run (H := scripted ready []) w in
  let lines := written (since w (final_world (main (H := scripted ready []) w))) in
  ending out = Completed
  /\ file_text (disk out) (resolve (H := scripted ready []) logFile)
     = earlier_log ++ concat lines
  /\ head lines = Some (lit "[2024-05-01T10:00:00.000Z] Node.js version: v18.17.0" ++ nl)
  /\ last lines = Some (lit "[2024-05-01T10:00:00.000Z] Setup completed successfully!" ++ nl)
  /\ length lines = 24.
Proof.
  intros w out lines.
  split; [vm_compute; reflexivity |]. split; [vm_compute; reflexivity |].
  split; [vm_compute; reflexivity |]. split; vm_compute; reflexivity.
Qed.

(** ** More of the example hosts at work *)

(** The newline after npm's version is trimmed away. *)
Lemma trim_strips_surrounding_whitespace_witness :
  trim ([] ++ lit "9.6.7" ++ nl) = lit "9.6.7".
Proof.
  apply trim_strips_surrounding_whitespace.
  - constructor.
  - repeat constructor.
  - intros c Hc. vm_compute in Hc. injection Hc as <-. reflexivity.
  - intros c Hc. vm_compute in Hc. injection Hc as <-. reflexivity.
Defined.

(** Node.js 14.0.0 passes the check that asks for 14.0.0. *)
Lemma minimum_itself_passes_witness :
  exists w',
    check_prerequisite (H := scripted exact_node []) node_js (boot exact_node [] ∅)
    = Done tt w'.
Proof.
  assert (Hshell : shell (Host := scripted exact_node []) (command node_js)
                     (w_ext (boot exact_node [] ∅)) (w_fs (boot exact_node [] ∅))
                   = (ExecOk (lit "v14.0.0" ++ nl), tt, ∅))
    by (vm_compute; reflexivity).
  assert (Hsame : replace_leading_v (trim (lit "v14.0.0" ++ nl))
                  = replace_leading_v (minVersion node_js))
    by (vm_compute; reflexivity).
  destruct (minimum_itself_passes (H := scripted exact_node []) node_js
              (boot exact_node [] ∅) (lit "v14.0.0" ++ nl) tt ∅ Hshell Hsame)
    as [Hrun _].
  eexists. exact Hrun.
Defined.

(** Git 1.9.0 prints [git version 1.9.0]; the letter g is above the digit 2,
    so the check that asks for 2.0.0 passes. *)
Lemma first_code_unit_decides_witness :
  returned (check_prerequisite (H := scripted old_git []) git (boot old_git [] ∅)) = true.
Proof.
  assert (Hshell : shell (Host := scripted old_git []) (command git)
                     (w_ext (boot old_git [] ∅)) (w_fs (boot old_git [] ∅))
                   = (ExecOk (lit "git version 1.9.0" ++ nl), tt, ∅))
    by (vm_compute; reflexivity).
  assert (Hd : replace_leading_v (trim (lit "git version 1.9.0" ++ nl))
               = 103%N :: lit "it version 1.9.0")
    by (vm_compute; reflexivity).
  assert (Hm : replace_leading_v (minVersion git) = 50%N :: lit ".0.0")
    by (vm_compute; reflexivity).
  apply (first_code_unit_decides (H := scripted old_git []) git (boot old_git [] ∅)
           _ _ _ _ _ _ _ Hshell Hd Hm).
  reflexivity.
Defined.

(** On the machine that has everything, the font step creates the font
    directory and goes through its whole plan. *)
Lemma install_font_follows_plan_witness :
  actions (since (boot ready [] fresh_disk)
             (final_world (install_font (H := scripted ready []) (boot ready [] fresh_disk))))
  = font_plan home_dev false.
Proof.
  assert (Hhome : HOME (Host := scripted ready []) = Some home_dev) by reflexivity.
  assert (Hret : returned (install_font (H := scripted ready []) (boot ready [] fresh_disk))
                 = true) by (vm_compute; reflexivity).
  destruct (install_font_follows_plan (H := scripted ready []) home_dev
              (boot ready [] fresh_disk) Hhome) as (_ & _ & _ & Hall & _).
  specialize (Hall Hret). vm_compute in Hall. vm_compute. exact Hall.
Defined.

(** The whole run on that machine, stage by stage. *)
Lemma main_runs_the_stages_in_order_witness :
  exists w1 w2 w3 w4 : @World (scripted ready []),
    actions (since (boot ready [] fresh_disk)
       (final_world (main (H := scripted ready []) (boot ready [] fresh_disk))))
    = gate_plan prerequisites
      ++ neovim_plan (succeeds (lit "nvim --version") w1)
      ++ font_plan home_dev
           (found (path_join home_dev [lit ".local"; lit "share"; lit "fonts"]) w2)
      ++ nvchad_plan home_dev (found nvim_dev w3)
      ++ configure_plan (H := scripted ready []) nvim_dev
           (found (path_join nvim_dev [lit "lua"; lit "custom"]) w4)
      ++ lsps_plan.
Proof.
  assert (Hret : returned (main (H := scripted ready []) (boot ready [] fresh_disk)) = true)
    by (vm_compute; reflexivity).
  destruct (main_runs_the_stages_in_order (H := scripted ready [])
              (boot ready [] fresh_disk) Hret)
    as (home & w1 & w2 & w3 & w4 & w5 & Hhome & _ & _ & _ & _ & _ & _ & Hplan).
  injection Hhome as <-. exists w1, w2, w3, w4. exact Hplan.
Defined.

(** Without HOME the run stops before the fonts, with no call on [fs]. *)
Lemma home_unset_stops_before_the_fonts_witness :
  returned (main (H := homeless ready) (boot_homeless ready fresh_disk)) = false
  /\ fs_calls (since (boot_homeless ready fresh_disk)
       (final_world (main (H := homeless ready) (boot_homeless ready fresh_disk)))) = [].
Proof.
  assert (Hhome : HOME (Host := homeless ready) = None) by reflexivity.
  destruct (home_unset_stops_before_the_fonts (H := homeless ready)
              (boot_homeless ready fresh_disk) Hhome) as (Hnot & Hnone & _).
  by split.
Defined.

(** With an earlier installation on the disk, the clone starts after the
    root was cleared. *)
Lemma clone_finds_the_root_cleared_witness :
  exists u,
    install_nvchad (H := scripted ready []) (boot ready [] used_disk)
    = clone_and_finish (path_join home_dev [lit ".config"; lit "nvim"]) u
    /\ node_at (w_fs u)
         (resolve (H := scripted ready []) (path_join home_dev [lit ".config"; lit "nvim"]))
       = None.
Proof.
  assert (Hhome : HOME (Host := scripted ready []) = Some home_dev) by reflexivity.
  destruct (clone_finds_the_root_cleared (H := scripted ready []) home_dev
              (boot ready [] used_disk) Hhome)
    as [(_ & Hthrown & _) | (u & Hrun & _ & _ & _ & Hnone)].
  - vm_compute in Hthrown. discriminate.
  - exists u. split; [exact Hrun |]. apply Hnone. reflexivity.
Defined.

(** On a fresh clone that has lua/plugins/configs the configuration step
    returns, and lua/custom is there afterwards. *)
Lemma configure_places_the_three_files_witness :
  is_dir (w_fs (final_world (configure_nvchad (H := scripted ready []) nvim_dev
                               (boot ready [] (cloned true fresh_disk)))))
         (resolve (H := scripted ready []) (path_join nvim_dev [lit "lua"; lit "custom"]))
  = true.
Proof.
  assert (Hret : returned (configure_nvchad (H := scripted ready []) nvim_dev
                             (boot ready [] (cloned true fresh_disk))) = true)
    by (vm_compute; reflexivity).
  destruct (configure_places_the_three_files (H := scripted ready []) nvim_dev
              (boot ready [] (cloned true fresh_disk)) Hret) as [Hdir _].
  exact Hdir.
Defined.
